(** * Document-Pagination: height-based pagination, page chrome and PDF export

    A shallow embedding of [src/hooks/usePagination.ts],
    [src/components/PageBreakVisualizer.tsx] and the [exportToPDF] function
    of [src/components/DocumentEditor.tsx].

    Numbers.  Every JavaScript number that occurs in the modelled code is an
    integer (pixel counts, page numbers, a DOM [scrollHeight], a canvas
    height) far below 2^53, where IEEE doubles are exact; they are modelled
    as [Z].  The one real-valued operation, the quotient inside
    [Math.ceil(a / b)], is taken in [Q]. *)

From Stdlib Require Import ZArith QArith Qround List Bool Lia Sorted.
From Stdlib Require Import Strings.String Strings.Ascii Numbers.DecimalString.
From Stdlib Require DecimalPos DecimalZ.
Import ListNotations.

#[local] Open Scope Z_scope.

(** ** JavaScript primitives used by the sources *)

Module JS.

(** [a / b] on numbers holding integers: the exact quotient. *)
Definition div (a b : Z) : Q := (inject_Z a / inject_Z b)%Q.

Definition Math_ceil (x : Q) : Z := Qceiling x.

Definition Math_max (a b : Z) : Z := Z.max a b.

Definition Math_min (a b : Z) : Z := Z.min a b.

(** [String(n)] for an integer [n]: its decimal numeral, with a leading
    minus sign for a negative [n]. *)
Definition String_of (n : Z) : string := NilZero.string_of_int (Z.to_int n).

(** [s.replace(searchValue, replaceValue)] with a string pattern: the
    leftmost occurrence of [searchValue] (if any) is replaced, the rest of
    [s] is kept.  [replaceValue] is inserted verbatim, which is what
    JavaScript does for every replacement free of the character [$]; the
    only caller passes a decimal numeral. *)
Definition replace (s searchValue replaceValue : string) : string :=
  match index 0 searchValue s with
  | None => s
  | Some pos =>
      let tail := (pos + String.length searchValue)%nat in
      (substring 0 pos s ++ replaceValue
         ++ substring tail (String.length s - tail) s)%string
  end.

(** Truthiness of an optional string property: [undefined] and the empty
    string are falsy. *)
Definition truthy (s : option string) : bool :=
  match s with
  | Some t => negb (t =? "")%string
  | None => false
  end.

End JS.

(** ** Page geometry: the constants of [usePagination.ts] *)

Module Geometry.

Definition LETTER_WIDTH_INCHES : Q := 17 # 2.   (* 8.5 *)
Definition LETTER_HEIGHT_INCHES : Q := 11 # 1.
Definition MARGIN_INCHES : Q := 1 # 1.
Definition DPI : Q := 96 # 1.

(** The three products are integers; [Qfloor] only changes the type. *)
Definition LETTER_WIDTH_PX : Z := Qfloor (LETTER_WIDTH_INCHES * DPI).
Definition LETTER_HEIGHT_PX : Z := Qfloor (LETTER_HEIGHT_INCHES * DPI).
Definition MARGIN_PX : Z := Qfloor (MARGIN_INCHES * DPI).

Definition CONTENT_WIDTH_PX : Z := LETTER_WIDTH_PX - 2 * MARGIN_PX.
Definition CONTENT_HEIGHT_PX : Z := LETTER_HEIGHT_PX - 2 * MARGIN_PX.

End Geometry.

(** ** The DOM element behind [contentRef] *)

Record Element := mkElement {
  scrollHeight : Z;
  style_background : string
}.

(** ** [usePagination]: the pagination engine *)

Module Pagination.

Record PageBreak := mkPageBreak {
  pageNumber : Z;
  heightFromTop : Z
}.

(** The two pieces of React state of the hook. *)
Record PaginationState := mkState {
  pageBreaks : list PageBreak;
  totalPages : Z
}.

(** [useState<PageBreak[]>([])] and [useState(1)]. *)
Definition initialState : PaginationState :=
  {| pageBreaks := []; totalPages := 1 |}.

(** The mutable locals of [calculatePageBreaks]. *)
Record Locals := mkLocals {
  breaks : list PageBreak;
  pageNum : Z;
  nextPageTop : Z
}.

Section WithPageHeight.

(** [CONTENT_HEIGHT_PX], kept abstract in this section. *)
Variable P : Z.

(** One execution of the body of the [while] loop. *)
Definition loop_body (l : Locals) : Locals :=
  let breaks' :=
    breaks l ++ [{| pageNumber := pageNum l; heightFromTop := nextPageTop l |}] in
  let pageNum' := pageNum l + 1 in
  {| breaks := breaks'; pageNum := pageNum'; nextPageTop := pageNum' * P |}.

(** [while (nextPageTop < contentHeight) { ... }]; [None] when [fuel]
    iterations did not reach the exit. *)
Fixpoint while_loop (fuel : nat) (contentHeight : Z) (l : Locals)
  : option Locals :=
  if nextPageTop l <? contentHeight then
    match fuel with
    | O => None
    | S fuel' => while_loop fuel' contentHeight (loop_body l)
    end
  else Some l.

(** [calculatePageBreaks], as a transformer of the hook's state.
    [current] is [contentRef.current]. *)
Definition calculatePageBreaks_at (fuel : nat) (current : option Element)
    (st : PaginationState) : option PaginationState :=
  match current with
  | None => Some st                      (* if (!contentRef.current) return; *)
  | Some el =>
      let contentHeight := scrollHeight el in
      match while_loop fuel contentHeight
              {| breaks := []; pageNum := 1; nextPageTop := P |} with
      | None => None
      | Some l =>
          let calculatedPages :=
            JS.Math_max 1 (JS.Math_ceil (JS.div contentHeight P)) in
          Some {| pageBreaks := breaks l; totalPages := calculatedPages |}
      end
  end.

End WithPageHeight.

Definition calculatePageBreaks : nat -> option Element -> PaginationState
                                 -> option PaginationState :=
  calculatePageBreaks_at Geometry.CONTENT_HEIGHT_PX.

(** The break the loop emits for page [k]. *)
Definition break_at (P : Z) (k : nat) : PageBreak :=
  {| pageNumber := Z.of_nat k; heightFromTop := Z.of_nat k * P |}.

(** How many integers [k >= 1] satisfy [k * P < H] (for [P > 0]). *)
Definition breaks_count (P H : Z) : nat := Z.to_nat ((H - 1) / P).

(** The state of an empty document: one page, no break. *)
Definition zeroState : PaginationState :=
  {| pageBreaks := []; totalPages := 1 |}.

(** Ordering of breaks by their offset from the top of the flow. *)
Definition above (a b : PageBreak) : Prop :=
  heightFromTop a < heightFromTop b.

End Pagination.

(** ** [PageBreakVisualizer]: the page chrome *)

Module Chrome.

Import Pagination.

(** The props read by the component ([contentRef] and [children] play no
    part in the layout arithmetic). *)
Record Props := mkProps {
  p_pageBreaks : list PageBreak;
  marginPx : Z;
  contentHeightPx : Z;
  contentWidthPx : Z;
  p_totalPages : Z;
  headerText : option string;
  footerText : option string;
  showPageNumbers : option bool        (* defaults to [true] *)
}.

Definition PAGE_GAP_PX : Z := 28.

(** One page 'paper' background with its header and footer overlays. *)
Record PageBackground := mkPageBackground {
  bg_key : nat;
  bg_width : Z;
  bg_height : Z;
  bg_top : Z;
  bg_header : option string;           (* [None]: no header element *)
  bg_footer : string
}.

Record GapStrip := mkGapStrip {
  gap_width : Z;
  gap_height : Z;
  gap_top : Z
}.

(** One overlaid dashed line with its "Page n" label. *)
Record BreakLine := mkBreakLine {
  line_key : Z;
  line_top : Z;
  line_label : string
}.

Record Rendered := mkRendered {
  minHeight : Z;
  pageBackgrounds : list PageBackground;
  gapStrips : list GapStrip;
  breakLines : list BreakLine
}.

(** The footer template and the page-number switch a [Props] stands for:
    an absent [footerText] reads as the empty template, an absent
    [showPageNumbers] as [true]. *)
Definition footerTemplate (props : Props) : string :=
  match footerText props with Some t => t | None => ""%string end.

Definition pageNumbersShown (props : Props) : bool :=
  match showPageNumbers props with Some b => b | None => true end.

(** [Array.from({ length: n }).map((_, i) => f i)]. *)
Definition Array_from_map {A : Type} (n : Z) (f : nat -> A) : list A :=
  map f (seq 0 (Z.to_nat n)).

(** The footer expression of page index [i]:
    [footerText ? footerText.replace('{page}', String(i + 1))
                : (showPageNumbers ? `Page ${i + 1}` : '')]. *)
Definition footer (footerText : option string) (showPageNumbers : bool)
    (i : nat) : string :=
  let page := JS.String_of (Z.of_nat i + 1) in
  if JS.truthy footerText then
    match footerText with
    | Some t => JS.replace t "{page}" page
    | None => ""%string
    end
  else if showPageNumbers then ("Page " ++ page)%string
  else ""%string.

Definition render (props : Props) : Rendered :=
  let showPageNumbers := pageNumbersShown props in
  let wrapperHeight :=
    JS.Math_max
      (contentHeightPx props * p_totalPages props
       + PAGE_GAP_PX * JS.Math_max 0 (p_totalPages props - 1))
      (contentHeightPx props) in
  {| minHeight := wrapperHeight;
     pageBackgrounds :=
       Array_from_map (JS.Math_max 1 (p_totalPages props)) (fun i =>
         let top := Z.of_nat i * (contentHeightPx props + PAGE_GAP_PX) in
         {| bg_key := i;
            bg_width := contentWidthPx props;
            bg_height := contentHeightPx props;
            bg_top := top;
            bg_header :=
              if JS.truthy (headerText props) then headerText props else None;
            bg_footer := footer (footerText props) showPageNumbers i |});
     gapStrips :=
       Array_from_map (JS.Math_max 0 (p_totalPages props - 1)) (fun i =>
         let gapTop :=
           (Z.of_nat i + 1) * (contentHeightPx props + PAGE_GAP_PX)
           - PAGE_GAP_PX in
         {| gap_width := contentWidthPx props;
            gap_height := PAGE_GAP_PX;
            gap_top := gapTop |});
     breakLines :=
       map (fun pageBreak =>
              {| line_key := pageNumber pageBreak;
                 line_top := heightFromTop pageBreak + marginPx props;
                 line_label :=
                   ("Page " ++ JS.String_of (pageNumber pageBreak))%string |})
           (p_pageBreaks props) |}.

(** The props [DocumentEditor] passes, from the hook's state and its own
    header/footer settings. *)
Definition editor_props (st : PaginationState) (header footer : string)
    (showNumbers : bool) : Props :=
  {| p_pageBreaks := pageBreaks st;
     marginPx := Geometry.MARGIN_PX;
     contentHeightPx := Geometry.CONTENT_HEIGHT_PX;
     contentWidthPx := Geometry.CONTENT_WIDTH_PX;
     p_totalPages := totalPages st;
     headerText := Some header;
     footerText := Some footer;
     showPageNumbers := Some showNumbers |}.

End Chrome.

(** ** [exportToPDF]: slicing one captured image into PDF pages *)

Module PdfExport.

Import Pagination.

(** The canvas returned by html2canvas; the slicing reads its size only. *)
Record Canvas := mkCanvas {
  canvas_width : Z;
  canvas_height : Z
}.

(** A per-page canvas: its own size and the source rectangle that
    [drawImage(canvas, sx, sy, w, h, 0, 0, w, h)] copied into it, pixel for
    pixel, over the white fill. *)
Record PageCanvas := mkPageCanvas {
  pc_width : Z;
  pc_height : Z;
  pc_sx : Z;
  pc_sy : Z
}.

(** An image drawn on a PDF page by [addImage(img, 'PNG', x, y, w, h)]: the
    whole image is scaled to the rectangle [w] x [h] at ([x], [y]). *)
Record PlacedImage := mkPlacedImage {
  pi_image : PageCanvas;
  pi_x : Z;
  pi_y : Z;
  pi_w : Z;
  pi_h : Z
}.

Record PdfPage := mkPdfPage { page_images : list PlacedImage }.

(** A jsPDF document.  jsPDF is a third-party library: a new document
    holds one blank page, [addPage] appends a page and makes it current,
    [addImage] draws on the current (last) page. *)
Record jsPDF := mkPdf {
  pdf_format : Z * Z;
  pdf_pages : list PdfPage
}.

Definition new_jsPDF (format : Z * Z) : jsPDF :=
  {| pdf_format := format; pdf_pages := [ {| page_images := [] |} ] |}.

Definition addPage (pdf : jsPDF) : jsPDF :=
  {| pdf_format := pdf_format pdf;
     pdf_pages := pdf_pages pdf ++ [ {| page_images := [] |} ] |}.

Definition addImage (img : PageCanvas) (x y w h : Z) (pdf : jsPDF) : jsPDF :=
  let placed := {| pi_image := img; pi_x := x; pi_y := y; pi_w := w; pi_h := h |} in
  {| pdf_format := pdf_format pdf;
     pdf_pages :=
       match rev (pdf_pages pdf) with
       | [] => []
       | cur :: before =>
           rev before ++ [ {| page_images := page_images cur ++ [placed] |} ]
       end |}.

(** What the export can touch: the content element, the hook's state shown
    on screen, and the files handed to the browser by [pdf.save]. *)
Record World := mkWorld {
  contentRef_current : option Element;
  pagination : PaginationState;
  downloads : list (string * jsPDF)
}.

(** How the promise returned by the async function settles. *)
Inductive Settled :=
| Fulfilled
| Rejected (reason : string).

Definition set_background (el : Element) (bg : string) : Element :=
  {| scrollHeight := scrollHeight el; style_background := bg |}.

Definition set_element (w : World) (el : Element) : World :=
  {| contentRef_current := Some el;
     pagination := pagination w;
     downloads := downloads w |}.

Definition save (name : string) (pdf : jsPDF) (w : World) : World :=
  {| contentRef_current := contentRef_current w;
     pagination := pagination w;
     downloads := downloads w ++ [(name, pdf)] |}.

Section WithGeometry.

(** [CONTENT_WIDTH_PX], [CONTENT_HEIGHT_PX] and the local [scale]. *)
Variables W P scale : Z.

(** The capture service: [inl reason] when the promise of
    [html2canvas(element, { scale, ... })] rejects. *)
Variable html2canvas : Element -> Z -> string + Canvas.

Definition pageWidthPx : Z := W * scale.
Definition pageHeightPx : Z := P * scale.

Definition totalPagesPdf (canvas : Canvas) : Z :=
  JS.Math_ceil (JS.div (canvas_height canvas) pageHeightPx).

(** The canvas cut for page index [i]. *)
Definition pageCanvas (canvas : Canvas) (i : nat) : PageCanvas :=
  let totalHeight := canvas_height canvas in
  let sx := 0 in
  let sy := Z.of_nat i * pageHeightPx in
  {| pc_width := pageWidthPx;
     pc_height := JS.Math_min pageHeightPx (totalHeight - sy);
     pc_sx := sx;
     pc_sy := sy |}.

(** The PDF page the loop builds for index [i]: one image, drawn over
    the whole page. *)
Definition page_of (canvas : Canvas) (i : nat) : PdfPage :=
  {| page_images :=
       [ {| pi_image := pageCanvas canvas i;
            pi_x := 0; pi_y := 0; pi_w := W; pi_h := P |} ] |}.

(** The body of the [for] loop. *)
Definition export_page (canvas : Canvas) (pdf : jsPDF) (i : nat) : jsPDF :=
  let pdf1 := if (0 <? Z.of_nat i) then addPage pdf else pdf in
  addImage (pageCanvas canvas i) 0 0 W P pdf1.

(** [for (let i = 0; i < totalPagesPdf; i++) { ... }]. *)
Definition assemble (canvas : Canvas) : jsPDF :=
  fold_left (export_page canvas)
            (seq 0 (Z.to_nat (totalPagesPdf canvas)))
            (new_jsPDF (W, P)).

Definition exportToPDF_at (w : World) : Settled * World :=
  match contentRef_current w with
  | None => (Fulfilled, w)               (* if (!contentRef.current) return; *)
  | Some element =>
      let previousBg := style_background element in
      let white := set_background element "#ffffff" in
      let w1 := set_element w white in
      match html2canvas white scale with
      | inl reason => (Rejected reason, w1)      (* the await throws *)
      | inr canvas =>
          let pdf := assemble canvas in
          let w2 := set_element w1 (set_background white previousBg) in
          (Fulfilled, save "document.pdf" pdf w2)
      end
  end.

End WithGeometry.

Definition exportToPDF : (Element -> Z -> string + Canvas) -> World
                         -> Settled * World :=
  exportToPDF_at Geometry.CONTENT_WIDTH_PX Geometry.CONTENT_HEIGHT_PX 2.

(** [addImage] keeps the aspect of the image iff the target rectangle is
    proportional to the image. *)
Definition keeps_aspect (p : PlacedImage) : Prop :=
  pi_w p * pc_height (pi_image p) = pi_h p * pc_width (pi_image p).

End PdfExport.

(** ** [recalculate]: the debounced recomputation *)

Module Debounce.

Import Pagination.

(** A timer of the event loop: its id and the time it is due. *)
Definition Timer : Type := nat * Z.

(** The hook seen over virtual time (milliseconds): the clock, the event
    loop's pending timers, [debounceTimerRef.current], the React state and
    a log of the recomputations the timers started. *)
Record Hook := mkHook {
  now : Z;
  next_id : nat;
  pending : list Timer;
  debounceTimerRef : option nat;
  hook_state : PaginationState;
  runs : list Timer
}.

Definition enough_fuel (current : option Element) : nat :=
  match current with
  | Some el => Z.to_nat (scrollHeight el / Geometry.CONTENT_HEIGHT_PX)
  | None => O
  end.

(** What holds of the hook at every moment: the event loop holds at most
    one of its timers, the one [debounceTimerRef] names; timer ids are
    fresh; no timer that ran is pending, and none ran twice. *)
Record well_formed (h : Hook) : Prop := {
  wf_pending :
    pending h = [] \/
    exists tm, pending h = [tm] /\ debounceTimerRef h = Some (fst tm);
  wf_pending_fresh :
    forall tm, In tm (pending h) -> (fst tm < next_id h)%nat;
  wf_runs_fresh :
    forall tm, In tm (runs h) -> (fst tm < next_id h)%nat;
  wf_pending_not_run :
    forall tm, In tm (pending h) -> ~ In (fst tm) (map fst (runs h));
  wf_runs_once : NoDup (map fst (runs h))
}.

Section WithContent.

(** [contentRef.current], with its measured height, as of time [t]. *)
Variable content_at : Z -> option Element.

(** The timer callback [() => { calculatePageBreaks(); }] run at [t]. *)
Definition run_calculate (t : Z) (st : PaginationState) : PaginationState :=
  match calculatePageBreaks (enough_fuel (content_at t)) (content_at t) st with
  | Some st' => st'
  | None => st
  end.

Definition clearTimeout (id : nat) (timers : list Timer) : list Timer :=
  filter (fun tm => negb (fst tm =? id)%nat) timers.

(** [recalculate]: clear the timer the ref holds, arm a new one. *)
Definition recalculate (h : Hook) : Hook :=
  let pending1 :=
    match debounceTimerRef h with
    | Some id => clearTimeout id (pending h)
    | None => pending h
    end in
  let id := next_id h in
  {| now := now h;
     next_id := S id;
     pending := pending1 ++ [(id, now h + 150)];
     debounceTimerRef := Some id;
     hook_state := hook_state h;
     runs := runs h |}.

(** The event loop runs a due timer: it leaves the pending set and its
    callback runs to completion.  The ref keeps the id. *)
Definition fire (h : Hook) (tm : Timer) : Hook :=
  {| now := Z.max (now h) (snd tm);
     next_id := next_id h;
     pending := clearTimeout (fst tm) (pending h);
     debounceTimerRef := debounceTimerRef h;
     hook_state := run_calculate (snd tm) (hook_state h);
     runs := runs h ++ [tm] |}.

(** Time passes until [t]: every timer due by then fires, oldest first
    (all delays are equal, so this is the order of the due times). *)
Definition advance (t : Z) (h : Hook) : Hook :=
  let h' := fold_left fire (filter (fun tm => snd tm <=? t) (pending h)) h in
  {| now := Z.max (now h') t;
     next_id := next_id h';
     pending := pending h';
     debounceTimerRef := debounceTimerRef h';
     hook_state := hook_state h';
     runs := runs h' |}.

(** A recalculation trigger (editor update or resize) arriving at [t]. *)
Definition trigger (t : Z) (h : Hook) : Hook := recalculate (advance t h).

(** The effect's cleanup: [clearTimeout(debounceTimerRef.current)]. *)
Definition cleanup (h : Hook) : Hook :=
  {| now := now h;
     next_id := next_id h;
     pending :=
       match debounceTimerRef h with
       | Some id => clearTimeout id (pending h)
       | None => pending h
       end;
     debounceTimerRef := debounceTimerRef h;
     hook_state := hook_state h;
     runs := runs h |}.

(** The hook at mount time [t0]: the effect computes once, directly. *)
Definition mount (t0 : Z) : Hook :=
  {| now := t0;
     next_id := O;
     pending := [];
     debounceTimerRef := None;
     hook_state := run_calculate t0 initialState;
     runs := [] |}.

Inductive Event :=
| Trigger (t : Z)
| Elapse (t : Z)
| Cleanup.

Definition step (h : Hook) (e : Event) : Hook :=
  match e with
  | Trigger t => trigger t h
  | Elapse t => advance t h
  | Cleanup => cleanup h
  end.

Definition run (events : list Event) (h : Hook) : Hook :=
  fold_left step events h.

End WithContent.

End Debounce.

(** ** Bursts of triggers *)

Module Burst.

(** Every time of [later] follows the one before it (the first follows [t])
    by less than the 150 ms window. *)
Fixpoint within_window (t : Z) (later : list Z) : Prop :=
  match later with
  | [] => True
  | t' :: rest => t <= t' < t + 150 /\ within_window t' rest
  end.

(** The hook after triggers at the given times, one after the other. *)
Definition triggers (content_at : Z -> option Element) (times : list Z)
    (h : Debounce.Hook) : Debounce.Hook :=
  fold_left (fun h' t => Debounce.trigger content_at t h') times h.

End Burst.

(** ** [DocumentEditor]: what is kept in [localStorage] *)

Module Persistence.

(** [localStorage]: its items, and whether reading or writing throws (storage
    disabled, quota used up). *)
Record Storage := mkStorage {
  readable : bool;
  writable : bool;
  items : string -> option string
}.

(** [localStorage.getItem(key)]: [None] when the call throws, [Some None]
    for [null]. *)
Definition getItem (ls : Storage) (key : string) : option (option string) :=
  if readable ls then Some (items ls key) else None.

(** [localStorage.setItem(key, value)]: [None] when the call throws. *)
Definition setItem (ls : Storage) (key value : string) : option Storage :=
  if writable ls then
    Some {| readable := readable ls;
            writable := writable ls;
            items := fun k => if (k =? key)%string then Some value
                              else items ls k |}
  else None.

Definition STORAGE_KEY_CONTENT : string := "doc-paginated-content".
Definition STORAGE_KEY_HEADER : string := "doc-paginated-header".
Definition STORAGE_KEY_FOOTER : string := "doc-paginated-footer".
Definition STORAGE_KEY_PAGE_NUMBERS : string := "doc-paginated-show-page-numbers".


(** The component state the two storage effects read and write: the editor
    ([None] while [useEditor] has not made it yet) with its HTML content, and
    the header/footer settings. *)
Record Settings := mkSettings {
  editor : option string;
  headerText : string;
  footerText : string;
  showPageNumbers : bool
}.

(** [useState('')], [useState('')], [useState(true)], around an editor. *)
Definition initialSettings (ed : option string) : Settings :=
  {| editor := ed; headerText := ""; footerText := ""; showPageNumbers := true |}.

(** The effect that restores what was saved (it depends on [editor]). *)
Definition restore (ls : Storage) (s : Settings) : Settings :=
  match editor s with
  | None => s                                     (* if (!editor) return; *)
  | Some html =>
      match getItem ls STORAGE_KEY_CONTENT, getItem ls STORAGE_KEY_HEADER,
            getItem ls STORAGE_KEY_FOOTER, getItem ls STORAGE_KEY_PAGE_NUMBERS with
      | Some saved, Some savedHeader, Some savedFooter, Some savedShow =>
          {| editor :=
               if JS.truthy saved then saved else Some html;
             headerText :=
               match savedHeader with Some v => v | None => headerText s end;
             footerText :=
               match savedFooter with Some v => v | None => footerText s end;
             showPageNumbers :=
               match savedShow with
               | Some v => (v =? "true")%string
               | None => showPageNumbers s
               end |}
      | _, _, _, _ => s                             (* catch: warn, go on *)
      end
  end.


(** A pending save: the timer's id, its due time and the HTML captured when
    the editor reported the update. *)
Definition SaveTimer : Type := (nat * Z * string)%type.

(** The content saver over virtual time: the clock, its pending timers,
    [saveTimer.current] and the storage. *)
Record Saver := mkSaver {
  s_now : Z;
  s_next_id : nat;
  s_pending : list SaveTimer;
  saveTimer : option nat;
  localStorage : Storage
}.

Definition timer_id (tm : SaveTimer) : nat := fst (fst tm).
Definition timer_due (tm : SaveTimer) : Z := snd (fst tm).
Definition timer_html (tm : SaveTimer) : string := snd tm.

Definition clearTimeout (id : nat) (timers : list SaveTimer) : list SaveTimer :=
  filter (fun tm => negb (timer_id tm =? id)%nat) timers.

(** The storage part of [onUpdate]: [html] is [editor.getHTML()] at the
    time of the update; the save itself is put off by 150 ms. *)
Definition schedule_save (html : string) (sv : Saver) : Saver :=
  let pending1 :=
    match saveTimer sv with
    | Some id => clearTimeout id (s_pending sv)
    | None => s_pending sv
    end in
  let id := s_next_id sv in
  {| s_now := s_now sv;
     s_next_id := S id;
     s_pending := pending1 ++ [(id, s_now sv + 150, html)];
     saveTimer := Some id;
     localStorage := localStorage sv |}.

(** A due save timer runs: [setItem] under [try], errors only logged. *)
Definition fire_save (sv : Saver) (tm : SaveTimer) : Saver :=
  {| s_now := Z.max (s_now sv) (timer_due tm);
     s_next_id := s_next_id sv;
     s_pending := clearTimeout (timer_id tm) (s_pending sv);
     saveTimer := saveTimer sv;
     localStorage :=
       match setItem (localStorage sv) STORAGE_KEY_CONTENT (timer_html tm) with
       | Some ls => ls
       | None => localStorage sv
       end |}.

Definition advance (t : Z) (sv : Saver) : Saver :=
  let sv' :=
    fold_left fire_save (filter (fun tm => timer_due tm <=? t) (s_pending sv)) sv in
  {| s_now := Z.max (s_now sv') t;
     s_next_id := s_next_id sv';
     s_pending := s_pending sv';
     saveTimer := saveTimer sv';
     localStorage := localStorage sv' |}.

(** An editor update with content [html] arriving at [t]. *)
Definition update (sv : Saver) (u : Z * string) : Saver :=
  schedule_save (snd u) (advance (fst u) sv).

Definition updates (us : list (Z * string)) (sv : Saver) : Saver :=
  fold_left update us sv.

(** The saver when the component mounts. *)
Definition mounted (t0 : Z) (ls : Storage) : Saver :=
  {| s_now := t0; s_next_id := O; s_pending := []; saveTimer := None;
     localStorage := ls |}.

(** What holds of the saver at every moment: at most one save is pending,
    the one [saveTimer] names. *)
Definition idle_or_armed (sv : Saver) : Prop :=
  s_pending sv = [] \/
  exists tm, s_pending sv = [tm] /\ saveTimer sv = Some (timer_id tm).

(** The whole [onUpdate] handler: it triggers the pagination hook and
    schedules the save. *)
Definition onUpdate (content_at : Z -> option Element) (t : Z) (html : string)
    (w : Debounce.Hook * Saver) : Debounce.Hook * Saver :=
  (Debounce.trigger content_at t (fst w), update (snd w) (t, html)).

End Persistence.

(** ** Facts about the primitives *)

Lemma Math_ceil_div (a b : Z) :
  JS.Math_ceil (JS.div a b) = - ((- a) / b).
Proof.
  unfold JS.Math_ceil, JS.div, Qceiling.
  f_equal.
  rewrite Zdiv_Qdiv.
  apply Qfloor_comp.
  rewrite inject_Z_opp.
  unfold Qdiv. ring.
Qed.

Lemma ceil_div_bounds (a b : Z) :
  0 < b ->
  (- ((- a) / b) - 1) * b < a <= - ((- a) / b) * b.
Proof.
  intros Hb.
  pose proof (Z.div_mod (- a) b ltac:(lia)) as E.
  pose proof (Z.mod_pos_bound (- a) b Hb) as B.
  nia.
Qed.

Lemma geometry_values :
  Geometry.LETTER_WIDTH_PX = 816 /\ Geometry.LETTER_HEIGHT_PX = 1056 /\
  Geometry.MARGIN_PX = 96 /\
  Geometry.CONTENT_WIDTH_PX = 624 /\ Geometry.CONTENT_HEIGHT_PX = 864.
Proof. repeat split; reflexivity. Qed.

(** ** The pagination engine *)

Import Pagination.

Lemma breaks_count_spec (P H : Z) (k : nat) :
  0 < P ->
  (1 <= k <= breaks_count P H)%nat <-> (1 <= k)%nat /\ Z.of_nat k * P < H.
Proof.
  intros HP. unfold breaks_count.
  pose proof (Z.div_mod (H - 1) P ltac:(lia)) as E.
  pose proof (Z.mod_pos_bound (H - 1) P HP) as B.
  split.
  - intros [H1 H2]. split; [exact H1|].
    assert (Z.of_nat k <= (H - 1) / P) by lia. nia.
  - intros [H1 H2]. split; [exact H1|].
    assert (Z.of_nat k <= (H - 1) / P) by nia. lia.
Qed.

(** The loop invariant: started at page [k] with [n] breaks still to come,
    the loop appends exactly those [n] breaks and stops. *)
Lemma while_loop_run (P H : Z) :
  0 < P ->
  forall (n fuel k : nat) (acc : list PageBreak),
    (n <= fuel)%nat ->
    (forall j, (k <= j < k + n)%nat -> Z.of_nat j * P < H) ->
    H <= Z.of_nat (k + n) * P ->
    while_loop P fuel H
      {| breaks := acc; pageNum := Z.of_nat k; nextPageTop := Z.of_nat k * P |}
    = Some {| breaks := acc ++ map (break_at P) (seq k n);
              pageNum := Z.of_nat (k + n);
              nextPageTop := Z.of_nat (k + n) * P |}.
Proof.
  intros HP. induction n as [|n IH]; intros fuel k acc Hfuel Hlt Hge.
  - rewrite Nat.add_0_r in *. rewrite app_nil_r.
    assert (E : (Z.of_nat k * P <? H) = false) by (apply Z.ltb_ge; exact Hge).
    destruct fuel; simpl; rewrite E; reflexivity.
  - destruct fuel as [|fuel]; [lia|].
    assert (E : (Z.of_nat k * P <? H) = true)
      by (apply Z.ltb_lt, Hlt; lia).
    simpl. rewrite E. unfold loop_body. cbn [breaks pageNum nextPageTop].
    replace (Z.of_nat k + 1) with (Z.of_nat (S k)) by lia.
    rewrite IH.
    + rewrite <- app_assoc. cbn [app map seq].
      replace (S k + n)%nat with (k + S n)%nat by lia. reflexivity.
    + lia.
    + intros j Hj. apply Hlt. lia.
    + replace (S k + n)%nat with (k + S n)%nat by lia. exact Hge.
Qed.

(** With enough fuel the recomputation returns, and what it returns is a
    function of the measured height alone. *)
Lemma calculatePageBreaks_at_result (P : Z) (fuel : nat) (el : Element)
    (prev : PaginationState) :
  0 < P ->
  (Z.to_nat (scrollHeight el / P) <= fuel)%nat ->
  calculatePageBreaks_at P fuel (Some el) prev
  = Some {| pageBreaks :=
              map (break_at P) (seq 1 (breaks_count P (scrollHeight el)));
            totalPages := Z.max 1 (- ((- scrollHeight el) / P)) |}.
Proof.
  intros HP Hfuel. unfold calculatePageBreaks_at.
  set (H := scrollHeight el) in *.
  pose proof (while_loop_run P H HP (breaks_count P H) fuel 1 []) as R.
  cbn [Z.of_nat Pos.of_succ_nat] in R. rewrite Z.mul_1_l in R.
  rewrite R; clear R.
  - cbn [breaks app]. rewrite Math_ceil_div. reflexivity.
  - unfold breaks_count.
    assert ((H - 1) / P <= H / P) by (apply Z.div_le_mono; lia). lia.
  - intros j Hj. apply (breaks_count_spec P H j HP). lia.
  - pose proof (breaks_count_spec P H (1 + breaks_count P H) HP) as S.
    destruct (Z_lt_le_dec (Z.of_nat (1 + breaks_count P H) * P) H) as [L|L];
      [|exact L].
    assert (1 <= 1 + breaks_count P H <= breaks_count P H)%nat
      by (apply S; split; [lia|exact L]).
    lia.
Qed.

(** C1.  For a measured height [H >= 0] and a page height [P > 0] the
    recomputation returns, and sets [totalPages = max(1, ceil(H / P))]: the
    least [t >= 1] with [H <= t * P].  For [H = 0] the new state is
    [totalPages = 1] with no page break. *)
Theorem total_pages_max_one_ceil (P : Z) (fuel : nat) (el : Element)
    (prev : PaginationState) :
  0 <= scrollHeight el ->
  0 < P ->
  (Z.to_nat (scrollHeight el / P) <= fuel)%nat ->
  exists st,
    calculatePageBreaks_at P fuel (Some el) prev = Some st /\
    totalPages st = JS.Math_max 1 (JS.Math_ceil (JS.div (scrollHeight el) P)) /\
    (1 <= totalPages st /\
     scrollHeight el <= totalPages st * P /\
     forall t, 1 <= t -> scrollHeight el <= t * P -> totalPages st <= t) /\
    (scrollHeight el = 0 -> st = {| pageBreaks := []; totalPages := 1 |}).
Proof.
  intros H0 HP Hfuel.
  eexists. split; [apply calculatePageBreaks_at_result; assumption|].
  cbn [totalPages]. rewrite Math_ceil_div. unfold JS.Math_max.
  pose proof (ceil_div_bounds (scrollHeight el) P HP) as B.
  split; [reflexivity|]. split.
  - split; [lia|]. split; [nia|].
    intros t Ht Hle.
    destruct (Z_lt_le_dec t (- (- scrollHeight el / P))) as [L|L]; [nia|lia].
  - intros E. rewrite E. unfold breaks_count.
    replace ((0 - 1) / P) with (-1).
    + rewrite Z.div_0_l by lia. reflexivity.
    + apply Z.div_unique with (r := P - 1); lia.
Qed.

Lemma total_pages_max_one_ceil_witness :
  exists st,
    calculatePageBreaks 3 (Some (mkElement 1729 "")) initialState = Some st /\
    totalPages st = 3.
Proof.
  destruct (total_pages_max_one_ceil Geometry.CONTENT_HEIGHT_PX 3
              (mkElement 1729 "") initialState) as (st & E & T & _).
  - simpl. lia.
  - reflexivity.
  - vm_compute. lia.
  - exists st. split; [exact E|]. rewrite T. reflexivity.
Defined.

Lemma break_run_sorted (P : Z) :
  0 < P -> forall n k, StronglySorted above (map (break_at P) (seq k n)).
Proof.
  intros HP. induction n as [|n IH]; intros k; cbn [seq map].
  - constructor.
  - constructor; [apply IH|].
    apply Forall_forall. intros b Hb.
    apply in_map_iff in Hb. destruct Hb as (j & <- & Hj).
    apply in_seq in Hj. unfold above, break_at. cbn [heightFromTop]. nia.
Qed.

Lemma break_run_last (P : Z) (n : nat) :
  last (map heightFromTop (map (break_at P) (seq 1 n))) 0 = Z.of_nat n * P.
Proof.
  destruct n as [|n]; [reflexivity|].
  rewrite seq_S, !map_app. cbn [map]. rewrite last_last. reflexivity.
Qed.

Lemma breaks_count_multiple (P k : Z) :
  0 < P -> 1 <= k -> breaks_count P (k * P) = Z.to_nat (k - 1).
Proof.
  intros HP Hk. unfold breaks_count. f_equal.
  symmetry. apply Z.div_unique with (r := P - 1); lia.
Qed.

(** C2.  For [H >= 0] and [P > 0] the breaks of a recomputation are exactly
    the entries [{pageNumber: k, heightFromTop: k * P}] with [k >= 1] and
    [k * P < H], in ascending order (the i-th entry is page [i]); none lies at
    or beyond [H]; for [H = k * P] there are [k - 1] of them, the last at
    [(k - 1) * P]; and the result does not depend on the state left by an
    earlier recomputation. *)
Theorem page_breaks_exact (P : Z) (fuel : nat) (el : Element)
    (prev : PaginationState) :
  0 <= scrollHeight el ->
  0 < P ->
  (Z.to_nat (scrollHeight el / P) <= fuel)%nat ->
  exists st,
    calculatePageBreaks_at P fuel (Some el) prev = Some st /\
    (forall b, In b (pageBreaks st) <->
               exists k, 1 <= k /\ k * P < scrollHeight el /\
                         b = {| pageNumber := k; heightFromTop := k * P |}) /\
    StronglySorted above (pageBreaks st) /\
    pageBreaks st = map (break_at P) (seq 1 (List.length (pageBreaks st))) /\
    Forall (fun b => heightFromTop b < scrollHeight el) (pageBreaks st) /\
    (forall k, 1 <= k -> scrollHeight el = k * P ->
               List.length (pageBreaks st) = Z.to_nat (k - 1) /\
               last (map heightFromTop (pageBreaks st)) 0 = (k - 1) * P) /\
    (forall prev' fuel', (Z.to_nat (scrollHeight el / P) <= fuel')%nat ->
               calculatePageBreaks_at P fuel' (Some el) prev' = Some st).
Proof.
  intros H0 HP Hfuel.
  eexists. split; [apply calculatePageBreaks_at_result; assumption|].
  cbn [pageBreaks].
  set (H := scrollHeight el) in *. set (n := breaks_count P H).
  assert (Hin : forall b, In b (map (break_at P) (seq 1 n)) <->
             exists k, 1 <= k /\ k * P < H /\
                       b = {| pageNumber := k; heightFromTop := k * P |}).
  { intros b. rewrite in_map_iff. split.
    - intros (j & <- & Hj). apply in_seq in Hj.
      assert (Hs : (1 <= j)%nat /\ Z.of_nat j * P < H)
        by (apply breaks_count_spec; [exact HP|fold n; lia]).
      exists (Z.of_nat j). split; [lia|]. split; [apply Hs|reflexivity].
    - intros (k & Hk & Hlt & ->). exists (Z.to_nat k).
      unfold break_at. rewrite Z2Nat.id by lia. split; [reflexivity|].
      apply in_seq.
      assert (1 <= Z.to_nat k <= n)%nat; [|lia].
      apply breaks_count_spec; [exact HP|]. rewrite Z2Nat.id by lia.
      split; [lia|exact Hlt]. }
  split; [exact Hin|].
  split; [apply break_run_sorted, HP|].
  split; [rewrite length_map, length_seq; reflexivity|].
  split.
  { apply Forall_forall. intros b Hb. apply Hin in Hb.
    destruct Hb as (k & _ & Hlt & ->). exact Hlt. }
  split.
  - intros k Hk E. rewrite length_map, length_seq, break_run_last.
    subst n. rewrite E, breaks_count_multiple by assumption.
    split; [reflexivity|]. rewrite Z2Nat.id by lia. reflexivity.
  - intros prev' fuel' Hfuel'. apply calculatePageBreaks_at_result; assumption.
Qed.

Lemma page_breaks_exact_witness :
  exists st,
    calculatePageBreaks 3 (Some (mkElement 2592 "")) initialState = Some st /\
    pageBreaks st = [ {| pageNumber := 1; heightFromTop := 864 |};
                      {| pageNumber := 2; heightFromTop := 1728 |} ].
Proof.
  destruct (page_breaks_exact Geometry.CONTENT_HEIGHT_PX 3
              (mkElement 2592 "") initialState) as (st & E & _ & _ & S & _ & M & _).
  - simpl. lia.
  - reflexivity.
  - vm_compute. lia.
  - exists st. split; [exact E|].
    destruct (M 3) as [L _]; [lia|reflexivity|].
    rewrite S, L. reflexivity.
Defined.

(** The state a recomputation leaves for a negative measurement is the one it
    leaves for [H = 0]; with no content element it returns at once and the
    state stays as it was. *)
Lemma negative_height_no_iteration (P : Z) (fuel : nat) (el : Element)
    (prev : PaginationState) :
  0 < P -> scrollHeight el <= 0 ->
  calculatePageBreaks_at P fuel (Some el) prev = Some zeroState.
Proof.
  intros HP Hneg. unfold calculatePageBreaks_at.
  assert (E : (P <? scrollHeight el) = false) by (apply Z.ltb_ge; lia).
  destruct fuel; simpl; rewrite E; cbn [breaks];
    rewrite Math_ceil_div; unfold zeroState, JS.Math_max; f_equal; f_equal;
    assert (- (- scrollHeight el / P) <= 0)
      by (pose proof (ceil_div_bounds (scrollHeight el) P HP); nia); lia.
Qed.

(** C6, as the code has it.  A negative measurement never fails (whatever
    the fuel) and yields the state of [H = 0], which is [totalPages = 1] with
    no break; when there is no content element to measure the recomputation
    never fails either, but leaves the previous state in place, which is the
    state of [H = 0] when no recomputation has happened before. *)
Theorem negative_height_as_zero (P : Z) (fuel : nat) (el : Element)
    (prev : PaginationState) :
  0 < P ->
  scrollHeight el < 0 ->
  calculatePageBreaks_at P fuel (Some el) prev
  = calculatePageBreaks_at P fuel (Some (mkElement 0 (style_background el))) prev /\
  calculatePageBreaks_at P fuel (Some el) prev
  = Some {| pageBreaks := []; totalPages := 1 |} /\
  calculatePageBreaks_at P fuel None prev = Some prev /\
  calculatePageBreaks_at P fuel None initialState
  = Some {| pageBreaks := []; totalPages := 1 |}.
Proof.
  intros HP Hneg.
  rewrite !negative_height_no_iteration by (cbn [scrollHeight]; lia).
  repeat split.
Qed.

Lemma negative_height_as_zero_witness :
  calculatePageBreaks 0 (Some (mkElement (-5) "")) initialState
  = Some {| pageBreaks := []; totalPages := 1 |}.
Proof.
  apply (negative_height_as_zero Geometry.CONTENT_HEIGHT_PX 0
           (mkElement (-5) "") initialState).
  - reflexivity.
  - simpl. lia.
Defined.

(** C6 as the spec states it fails: with no content element, a hook that
    showed three pages keeps showing three pages. *)
Lemma unmeasurable_keeps_previous_state :
  let prev := {| pageBreaks := [ {| pageNumber := 1; heightFromTop := 864 |};
                                 {| pageNumber := 2; heightFromTop := 1728 |} ];
                 totalPages := 3 |} in
  calculatePageBreaks 3 None prev = Some prev /\
  calculatePageBreaks 3 (Some (mkElement 0 "")) prev
  = Some {| pageBreaks := []; totalPages := 1 |} /\
  calculatePageBreaks 3 None prev
  <> calculatePageBreaks 3 (Some (mkElement 0 "")) prev.
Proof.
  cbv zeta. repeat split. discriminate.
Qed.

(** ** Strings *)

Section StringFacts.

#[local] Open Scope string_scope.
#[local] Open Scope nat_scope.

Lemma length_append (a b : string) :
  String.length (a ++ b) = String.length a + String.length b.
Proof. induction a as [|c a IH]; simpl; [reflexivity|now rewrite IH]. Qed.

Lemma substring_whole (s : string) : substring 0 (String.length s) s = s.
Proof. induction s as [|c s IH]; simpl; [reflexivity|now rewrite IH]. Qed.

Lemma substring_append_prefix (a b : string) :
  substring 0 (String.length a) (a ++ b) = a.
Proof.
  induction a as [|c a IH]; simpl; [now destruct b|now rewrite IH].
Qed.

Lemma substring_append_skip (a b : string) (q n : nat) :
  substring (String.length a + q) n (a ++ b) = substring q n b.
Proof. induction a as [|c a IH]; simpl; [reflexivity|exact IH]. Qed.

(** The position [String.index] finds is the leftmost occurrence. *)
Lemma index_leftmost (pre pat post : string) :
  pat <> "" ->
  (forall k, k < String.length pre ->
             substring k (String.length pat) (pre ++ pat ++ post) <> pat) ->
  index 0 pat (pre ++ pat ++ post) = Some (String.length pre).
Proof.
  intros Hpat Hfirst.
  assert (Hocc : substring (String.length pre) (String.length pat)
                   (pre ++ pat ++ post) = pat).
  { rewrite <- (Nat.add_0_r (String.length pre)), substring_append_skip.
    apply substring_append_prefix. }
  destruct (index 0 pat (pre ++ pat ++ post)) as [m|] eqn:E.
  - f_equal.
    destruct (Nat.lt_trichotomy m (String.length pre)) as [L|[L|L]].
    + exfalso. apply (Hfirst m L). eapply index_correct1, E.
    + exact L.
    + exfalso.
      apply (index_correct2 _ _ _ _ E (String.length pre)); [lia|exact L|exact Hocc].
  - exfalso.
    apply (index_correct3 0 (String.length pre) _ _ E Hpat); [lia|exact Hocc].
Qed.

(** [replace] rewrites the leftmost occurrence and nothing else. *)
Lemma replace_leftmost (pre pat post rep : string) :
  pat <> "" ->
  (forall k, k < String.length pre ->
             substring k (String.length pat) (pre ++ pat ++ post) <> pat) ->
  JS.replace (pre ++ pat ++ post) pat rep = pre ++ rep ++ post.
Proof.
  intros Hpat Hfirst. unfold JS.replace.
  rewrite (index_leftmost pre pat post Hpat Hfirst).
  cbv zeta. rewrite substring_append_prefix.
  rewrite substring_append_skip.
  rewrite <- (Nat.add_0_r (String.length pat)) at 1.
  rewrite substring_append_skip.
  rewrite !length_append.
  replace (String.length pre + (String.length pat + String.length post)
           - (String.length pre + String.length pat))
    with (String.length post) by lia.
  rewrite substring_whole. reflexivity.
Qed.

(** Without an occurrence [replace] returns its subject. *)
Lemma replace_absent (s pat rep : string) :
  (forall k, substring k (String.length pat) s <> pat) ->
  JS.replace s pat rep = s.
Proof.
  intros Hno. unfold JS.replace.
  destruct (index 0 pat s) as [m|] eqn:E; [|reflexivity].
  exfalso. apply (Hno m). eapply index_correct1, E.
Qed.

End StringFacts.

(** ** The page chrome *)

Import Chrome.

Lemma Array_from_map_nth {A : Type} (n : Z) (f : nat -> A) (i : nat) :
  Z.of_nat i < n -> nth_error (Array_from_map n f) i = Some (f i).
Proof.
  intros Hi. unfold Array_from_map.
  rewrite nth_error_map.
  rewrite (nth_error_nth' _ O) by (rewrite length_seq; lia).
  rewrite seq_nth by lia. reflexivity.
Qed.

Lemma footer_cases (props : Props) (i : nat) :
  footer (footerText props) (pageNumbersShown props) i
  = if (footerTemplate props =? "")%string
    then if pageNumbersShown props
         then ("Page " ++ JS.String_of (Z.of_nat i + 1))%string
         else ""%string
    else JS.replace (footerTemplate props) "{page}" (JS.String_of (Z.of_nat i + 1)).
Proof.
  unfold footer, footerTemplate, JS.truthy.
  destruct (footerText props) as [t|]; [|reflexivity].
  destruct (t =? "")%string; reflexivity.
Qed.

(** C5.  On every page index [i] in [[0, totalPages)] the footer is exactly
    one of three renderings: for a non-empty template, the template with
    [{page}] replaced by the decimal numeral of [i + 1] (and the template
    itself when it holds no [{page}]); otherwise ["Page "] followed by
    [i + 1] when page numbers are shown; otherwise the empty string.  A
    non-empty template wins over the page-number fallback. *)
Theorem footer_three_outcomes (props : Props) (i : nat) :
  Z.of_nat i < p_totalPages props ->
  exists bg,
    nth_error (pageBackgrounds (render props)) i = Some bg /\
    let page := JS.String_of (Z.of_nat i + 1) in
    let t := footerTemplate props in
    (t <> ""%string -> bg_footer bg = JS.replace t "{page}" page) /\
    (forall pre post,
        t = (pre ++ "{page}" ++ post)%string ->
        (forall k, (k < String.length pre)%nat -> substring k 6 t <> "{page}"%string) ->
        bg_footer bg = (pre ++ page ++ post)%string) /\
    (t <> ""%string ->
     (forall k, substring k 6 t <> "{page}"%string) -> bg_footer bg = t) /\
    (t = ""%string -> pageNumbersShown props = true ->
     bg_footer bg = ("Page " ++ page)%string) /\
    (t = ""%string -> pageNumbersShown props = false -> bg_footer bg = ""%string).
Proof.
  intros Hi. eexists. split.
  { unfold render. cbn [pageBackgrounds].
    apply Array_from_map_nth. unfold JS.Math_max. lia. }
  cbn [bg_footer]. rewrite footer_cases.
  cbv zeta. repeat split.
  - intros Ht. apply String.eqb_neq in Ht. rewrite Ht. reflexivity.
  - intros pre post E Hfirst.
    assert (Ht : (footerTemplate props =? "")%string = false).
    { apply String.eqb_neq. rewrite E. destruct pre; discriminate. }
    rewrite Ht. rewrite E in *.
    apply replace_leftmost; [discriminate|exact Hfirst].
  - intros Ht Hno. apply String.eqb_neq in Ht. rewrite Ht.
    apply replace_absent. exact Hno.
  - intros Ht Hshow. rewrite Ht, Hshow. reflexivity.
  - intros Ht Hshow. rewrite Ht, Hshow. reflexivity.
Qed.

Lemma footer_three_outcomes_witness :
  exists bg,
    nth_error (pageBackgrounds
                 (render (editor_props {| pageBreaks := []; totalPages := 3 |}
                            "" "Page {page} of N" true))) 2 = Some bg /\
    bg_footer bg = "Page 3 of N"%string.
Proof.
  destruct (footer_three_outcomes
              (editor_props {| pageBreaks := []; totalPages := 3 |}
                 "" "Page {page} of N" true) 2) as (bg & E & R & _).
  - simpl. lia.
  - exists bg. split; [exact E|]. rewrite R; [reflexivity|discriminate].
Defined.

(** C10.  In a template that holds [{page}] more than once only the leftmost
    occurrence gives way to the page number: everything after it, later
    occurrences of [{page}] included, is rendered as written, on every
    page. *)
Theorem only_first_placeholder_replaced (props : Props) (pre post : string)
    (i : nat) :
  footerText props = Some (pre ++ "{page}" ++ post)%string ->
  (forall k, (k < String.length pre)%nat ->
             substring k 6 (pre ++ "{page}" ++ post) <> "{page}"%string) ->
  Z.of_nat i < p_totalPages props ->
  exists bg,
    nth_error (pageBackgrounds (render props)) i = Some bg /\
    let page := JS.String_of (Z.of_nat i + 1) in
    bg_footer bg = (pre ++ page ++ post)%string /\
    forall q, substring q 6 post = "{page}"%string ->
              substring (String.length pre + (String.length page + q)) 6
                        (bg_footer bg) = "{page}"%string.
Proof.
  intros Ht Hfirst Hi. eexists. split.
  { unfold render. cbn [pageBackgrounds].
    apply Array_from_map_nth. unfold JS.Math_max. lia. }
  cbn [bg_footer]. cbv zeta.
  assert (E : footer (footerText props) (pageNumbersShown props) i
              = (pre ++ JS.String_of (Z.of_nat i + 1) ++ post)%string).
  { rewrite footer_cases. unfold footerTemplate. rewrite Ht.
    replace ((pre ++ "{page}" ++ post =? "")%string) with false
      by (symmetry; apply String.eqb_neq; destruct pre; discriminate).
    apply replace_leftmost; [discriminate|exact Hfirst]. }
  rewrite E. split; [reflexivity|].
  intros q Hq. rewrite !substring_append_skip. exact Hq.
Qed.

Lemma only_first_placeholder_replaced_witness :
  exists bg,
    nth_error (pageBackgrounds
                 (render (editor_props {| pageBreaks := []; totalPages := 2 |}
                            "" "p. {page} of {page}" false))) 1 = Some bg /\
    bg_footer bg = "p. 2 of {page}"%string.
Proof.
  destruct (only_first_placeholder_replaced
              (editor_props {| pageBreaks := []; totalPages := 2 |}
                 "" "p. {page} of {page}" false) "p. " " of {page}" 1)
    as (bg & E & R & _).
  - reflexivity.
  - simpl. intros [|[|[|k]]] Hk; [discriminate|discriminate|discriminate|lia].
  - simpl. lia.
  - exists bg. split; [exact E|exact R].
Defined.

(** C8.  Page index [i] in [[0, totalPages)] gets a background rectangle
    [contentWidthPx] wide and [contentHeightPx] high whose top is
    [i * (contentHeightPx + G)], with [G] the 28 px gap; and the break
    indicators are, in order, one per [PageBreak]: at
    [heightFromTop + marginPx], labelled with that break's [pageNumber]. *)
Theorem chrome_layout (props : Props) (i : nat) :
  Z.of_nat i < p_totalPages props ->
  (exists bg,
      nth_error (pageBackgrounds (render props)) i = Some bg /\
      bg_width bg = contentWidthPx props /\
      bg_height bg = contentHeightPx props /\
      bg_top bg = Z.of_nat i * (contentHeightPx props + PAGE_GAP_PX)) /\
  Forall2 (fun b line =>
             line_top line = heightFromTop b + marginPx props /\
             line_label line = ("Page " ++ JS.String_of (pageNumber b))%string)
          (p_pageBreaks props) (breakLines (render props)).
Proof.
  intros Hi. split.
  - eexists. split.
    + unfold render. cbn [pageBackgrounds].
      apply Array_from_map_nth. unfold JS.Math_max. lia.
    + repeat split.
  - unfold render. cbn [breakLines].
    induction (p_pageBreaks props) as [|b l IH]; cbn [map]; constructor.
    + split; reflexivity.
    + exact IH.
Qed.

Lemma chrome_layout_witness :
  exists bg,
    nth_error (pageBackgrounds
                 (render (editor_props
                            {| pageBreaks := [ {| pageNumber := 1; heightFromTop := 864 |} ];
                               totalPages := 2 |} "" "" true))) 1 = Some bg /\
    bg_top bg = 892 /\
    map line_top
        (breakLines
           (render (editor_props
                      {| pageBreaks := [ {| pageNumber := 1; heightFromTop := 864 |} ];
                         totalPages := 2 |} "" "" true))) = [960].
Proof.
  destruct (chrome_layout
              (editor_props
                 {| pageBreaks := [ {| pageNumber := 1; heightFromTop := 864 |} ];
                    totalPages := 2 |} "" "" true) 1)
    as ((bg & E & _ & _ & T) & _).
  - simpl. lia.
  - exists bg. split; [exact E|]. split; [rewrite T|]; reflexivity.
Defined.

(** ** The PDF export *)

Import PdfExport.

Section ExportFacts.

Variables W P scale : Z.

Lemma export_pages_run (canvas : Canvas) (n : nat) :
  fold_left (export_page W P scale canvas) (seq 0 (S n)) (new_jsPDF (W, P))
  = {| pdf_format := (W, P); pdf_pages := map (page_of W P scale canvas) (seq 0 (S n)) |}.
Proof.
  induction n as [|n IH]; [reflexivity|].
  rewrite seq_S, fold_left_app, IH. cbn [fold_left Nat.add].
  unfold export_page.
  replace (0 <? Z.of_nat (S n)) with true by (symmetry; apply Z.ltb_lt; lia).
  unfold addImage, addPage. cbn [pdf_pages pdf_format].
  rewrite rev_app_distr. cbn [rev app]. rewrite rev_involutive.
  rewrite map_app. reflexivity.
Qed.

(** The assembled document: its initial blank page when the loop does not
    run, else one page per slice. *)
Lemma assemble_pages (canvas : Canvas) :
  pdf_pages (assemble W P scale canvas)
  = match Z.to_nat (totalPagesPdf P scale canvas) with
    | O => [ {| page_images := [] |} ]
    | S n => map (page_of W P scale canvas) (seq 0 (S n))
    end.
Proof.
  unfold assemble.
  destruct (Z.to_nat (totalPagesPdf P scale canvas)) as [|n]; [reflexivity|].
  rewrite export_pages_run. reflexivity.
Qed.

Lemma assemble_page_count (canvas : Canvas) :
  Z.of_nat (List.length (pdf_pages (assemble W P scale canvas)))
  = Z.max 1 (totalPagesPdf P scale canvas).
Proof.
  rewrite assemble_pages.
  destruct (Z.to_nat (totalPagesPdf P scale canvas)) as [|n] eqn:E.
  - cbn [List.length]. lia.
  - rewrite length_map, length_seq. lia.
Qed.

(** The scale factor cancels in the page count. *)
Lemma totalPagesPdf_scaled (canvas : Canvas) (H : Z) :
  0 < scale ->
  canvas_height canvas = H * scale ->
  totalPagesPdf P scale canvas = - ((- H) / P).
Proof.
  intros Hs E. unfold totalPagesPdf, pageHeightPx.
  rewrite Math_ceil_div, E. f_equal.
  destruct (Z.eq_dec P 0) as [->|HP].
  - now rewrite Z.mul_0_l, !Z.div_0_r.
  - rewrite <- Z.mul_opp_l. apply Z.div_mul_cancel_r; lia.
Qed.

(** The size of the canvas cut for page [i]: always a full page wide; a
    full page high while a whole page of rows remains, else just the rows
    that remain. *)
Lemma pageCanvas_size (canvas : Canvas) (i : nat) :
  0 < P * scale ->
  Z.of_nat i < totalPagesPdf P scale canvas ->
  let pc := pageCanvas W P scale canvas i in
  let rest := canvas_height canvas - Z.of_nat i * (P * scale) in
  pc_width pc = W * scale /\
  0 < pc_height pc <= P * scale /\
  (P * scale <= rest -> pc_height pc = P * scale) /\
  (rest < P * scale -> pc_height pc = rest).
Proof.
  intros Hpos Hi. cbv zeta. unfold pageCanvas, pageWidthPx, pageHeightPx.
  cbn [pc_width pc_height]. unfold JS.Math_min.
  unfold totalPagesPdf, pageHeightPx in Hi. rewrite Math_ceil_div in Hi.
  pose proof (ceil_div_bounds (canvas_height canvas) (P * scale) Hpos) as B.
  assert (Z.of_nat i * (P * scale) < canvas_height canvas) by nia.
  repeat split; lia.
Qed.

End ExportFacts.

(** C4.  For unchanged content (the captured image is [H * scaleFactor]
    high, [H >= 0]) the exported document has as many pages as the live
    [totalPages] of the same [H] and page height, whatever the positive scale
    factor.  The loop's own count [totalPagesPdf] is that number too whenever
    [H > 0]; at [H = 0] it is 0 and the document keeps its initial page. *)
Theorem export_page_count_is_live_count (W P scale : Z)
    (html2canvas : Element -> Z -> string + Canvas) (w : World)
    (el : Element) (canvas : Canvas) (fuel : nat) (prev : PaginationState) :
  0 <= scrollHeight el ->
  0 < P ->
  0 < scale ->
  contentRef_current w = Some el ->
  html2canvas (set_background el "#ffffff") scale = inr canvas ->
  canvas_height canvas = scrollHeight el * scale ->
  (Z.to_nat (scrollHeight el / P) <= fuel)%nat ->
  exists st pdf w',
    calculatePageBreaks_at P fuel (Some el) prev = Some st /\
    exportToPDF_at W P scale html2canvas w = (Fulfilled, w') /\
    downloads w' = downloads w ++ [("document.pdf"%string, pdf)] /\
    Z.of_nat (List.length (pdf_pages pdf)) = totalPages st /\
    JS.Math_max 1 (totalPagesPdf P scale canvas) = totalPages st /\
    (0 < scrollHeight el -> totalPagesPdf P scale canvas = totalPages st).
Proof.
  intros H0 HP Hs Hcur Hcap Hh Hfuel.
  eexists. exists (assemble W P scale canvas). eexists.
  split; [apply calculatePageBreaks_at_result; assumption|].
  split; [unfold exportToPDF_at; rewrite Hcur, Hcap; reflexivity|].
  split; [reflexivity|].
  cbn [totalPages]. rewrite assemble_page_count. unfold JS.Math_max.
  rewrite totalPagesPdf_scaled with (H := scrollHeight el) by assumption.
  repeat split.
  intros Hpos.
  pose proof (ceil_div_bounds (scrollHeight el) P HP). nia.
Qed.

Lemma export_page_count_is_live_count_witness :
  exists st pdf w',
    calculatePageBreaks 3 (Some (mkElement 2160 "")) initialState = Some st /\
    exportToPDF (fun el s => inr (mkCanvas (624 * s) (scrollHeight el * s)))
      {| contentRef_current := Some (mkElement 2160 "");
         pagination := initialState; downloads := [] |} = (Fulfilled, w') /\
    downloads w' = [("document.pdf"%string, pdf)] /\
    Z.of_nat (List.length (pdf_pages pdf)) = totalPages st.
Proof.
  destruct (export_page_count_is_live_count
              Geometry.CONTENT_WIDTH_PX Geometry.CONTENT_HEIGHT_PX 2
              (fun el s => inr (mkCanvas (624 * s) (scrollHeight el * s)))
              {| contentRef_current := Some (mkElement 2160 "");
                 pagination := initialState; downloads := [] |}
              (mkElement 2160 "") (mkCanvas 1248 4320) 3 initialState)
    as (st & pdf & w' & E1 & E2 & E3 & E4 & _).
  - simpl. lia.
  - reflexivity.
  - lia.
  - reflexivity.
  - reflexivity.
  - reflexivity.
  - vm_compute. lia.
  - exists st, pdf, w'. repeat split; assumption.
Defined.

(** C3 at the spec's own example: a capture two and a half pages high
    ([4320 = 2.5 * 1728] at scale 2).  The export makes three pages; the first
    two buffers are [1248 x 1728], but the third is cut to the [864] rows that
    remain, not padded to [1728], and [addImage] then spreads it over the
    whole [624 x 864] page, which stretches it to twice its height. *)
Theorem short_last_page_is_stretched :
  let capture := fun (_ : Element) (_ : Z) => inr (mkCanvas 1248 4320) in
  let w := {| contentRef_current := Some (mkElement 2160 "");
              pagination := initialState; downloads := [] |} in
  exists p1 p2 p3,
    snd (exportToPDF capture w)
    = {| contentRef_current := Some (mkElement 2160 "");
         pagination := initialState;
         downloads :=
           [("document.pdf"%string,
             {| pdf_format := (624, 864);
                pdf_pages := [ {| page_images := [p1] |};
                               {| page_images := [p2] |};
                               {| page_images := [p3] |} ] |})] |} /\
    (pc_width (pi_image p1), pc_height (pi_image p1)) = (1248, 1728) /\
    (pc_width (pi_image p2), pc_height (pi_image p2)) = (1248, 1728) /\
    (pc_width (pi_image p3), pc_height (pi_image p3)) = (1248, 864) /\
    (pi_w p3, pi_h p3) = (624, 864) /\
    keeps_aspect p1 /\ keeps_aspect p2 /\ ~ keeps_aspect p3.
Proof.
  cbv zeta. do 3 eexists.
  split; [vm_compute; reflexivity|].
  repeat split. vm_compute. discriminate.
Qed.

(** C7 at a failing capture, on the element as the editor creates it (no
    inline background).  The promise rejects, nothing is saved and the
    pagination state is untouched, but the element keeps the white inline
    background the export gave it: the line that restores [previousBg] is
    never reached. *)
Theorem failed_capture_leaves_background :
  let capture := fun (_ : Element) (_ : Z) => inl "capture failed"%string in
  let w := {| contentRef_current := Some (mkElement 2160 "");
              pagination := initialState; downloads := [] |} in
  exportToPDF capture w
  = (Rejected "capture failed",
     {| contentRef_current := Some (mkElement 2160 "#ffffff");
        pagination := initialState; downloads := [] |}) /\
  option_map style_background (contentRef_current (snd (exportToPDF capture w)))
  <> option_map style_background (contentRef_current w).
Proof.
  cbv zeta. split; [reflexivity|discriminate].
Qed.

(** ** The debounce *)

Import Debounce.

Section DebounceFacts.

Variable content_at : Z -> option Element.

Lemma clearTimeout_itself (tm : Timer) : clearTimeout (fst tm) [tm] = [].
Proof. unfold clearTimeout. cbn [filter]. now rewrite Nat.eqb_refl. Qed.

(** No timer pending: time just passes. *)
Lemma advance_idle (t : Z) (h : Hook) :
pending h = [] ->
advance content_at t h
= {| now := Z.max (now h) t; next_id := next_id h; pending := [];
     debounceTimerRef := debounceTimerRef h;
     hook_state := hook_state h; runs := runs h |}.
Proof. intros E. unfold advance. rewrite E. cbn. now rewrite E. Qed.

(** The pending timer is not due yet: time just passes. *)
Lemma advance_waiting (t : Z) (h : Hook) (tm : Timer) :
pending h = [tm] -> t < snd tm ->
advance content_at t h
= {| now := Z.max (now h) t; next_id := next_id h; pending := [tm];
     debounceTimerRef := debounceTimerRef h;
     hook_state := hook_state h; runs := runs h |}.
Proof.
intros E Hlt. unfold advance. rewrite E. cbn [filter].
replace (snd tm <=? t) with false by (symmetry; apply Z.leb_gt; exact Hlt).
cbn. now rewrite E.
Qed.

(** The pending timer is due: its callback runs, once, at its due time. *)
Lemma advance_due (t : Z) (h : Hook) (tm : Timer) :
pending h = [tm] -> snd tm <= t ->
advance content_at t h
= {| now := Z.max (Z.max (now h) (snd tm)) t; next_id := next_id h;
     pending := [];
     debounceTimerRef := debounceTimerRef h;
     hook_state := run_calculate content_at (snd tm) (hook_state h);
     runs := runs h ++ [tm] |}.
Proof.
intros E Hle. unfold advance. rewrite E. cbn [filter].
replace (snd tm <=? t) with true by (symmetry; apply Z.leb_le; exact Hle).
cbn. rewrite E, clearTimeout_itself. reflexivity.
Qed.

(** After [recalculate] exactly one timer is pending: the new one. *)
Lemma recalculate_pending (h : Hook) :
well_formed h -> pending (recalculate h) = [(next_id h, now h + 150)].
Proof.
intros [Hp _ _ _ _]. unfold recalculate. cbn [pending].
destruct Hp as [E|(tm & E & R)].
- rewrite E. destruct (debounceTimerRef h); reflexivity.
- rewrite E, R, clearTimeout_itself. reflexivity.
Qed.

Lemma well_formed_mount (t0 : Z) : well_formed (mount content_at t0).
Proof.
constructor; cbn; try (intros tm []).
- left. reflexivity.
- constructor.
Qed.

Lemma well_formed_recalculate (h : Hook) :
well_formed h -> well_formed (recalculate h).
Proof.
intros Hwf. pose proof (recalculate_pending h Hwf) as E.
destruct Hwf as [Hp Hpf Hrf Hnr Hnd].
constructor; rewrite ?E.
- right. eexists. split; reflexivity.
- intros tm [<-|[]]. cbn. lia.
- intros tm Hin. cbn in *. specialize (Hrf tm Hin). lia.
- intros tm [<-|[]] Hin. cbn in Hin.
  apply in_map_iff in Hin. destruct Hin as (r & Er & Hr).
  specialize (Hrf r Hr). lia.
- exact Hnd.
Qed.

Lemma well_formed_advance (t : Z) (h : Hook) :
well_formed h -> well_formed (advance content_at t h).
Proof.
intros [Hp Hpf Hrf Hnr Hnd].
destruct Hp as [E|(tm & E & R)].
- rewrite (advance_idle t h E).
  constructor; cbn; try (intros tm []); auto.
- destruct (Z_lt_le_dec t (snd tm)) as [L|L].
  + rewrite (advance_waiting t h tm E L). rewrite E in *.
    constructor; cbn; auto. right. exists tm. split; [reflexivity|exact R].
  + rewrite (advance_due t h tm E L). rewrite E in *.
    assert (Htm : In tm [tm]) by (left; reflexivity).
    constructor; cbn; try (intros x []); auto.
    * intros x Hx. apply in_app_or in Hx. destruct Hx as [Hx|[<-|[]]]; auto.
    * rewrite map_app. apply NoDup_app; [exact Hnd|repeat constructor; intros []|].
      intros a Ha [<-|[]]. exact (Hnr tm Htm Ha).
Qed.

Lemma well_formed_cleanup (h : Hook) :
well_formed h -> well_formed (cleanup h).
Proof.
intros [Hp Hpf Hrf Hnr Hnd].
assert (E : pending (cleanup h) = []).
{ unfold cleanup. cbn [pending]. destruct Hp as [E|(tm & E & R)].
  - rewrite E. destruct (debounceTimerRef h); reflexivity.
  - rewrite E, R. apply clearTimeout_itself. }
constructor; rewrite ?E; cbn; try (intros tm []); auto.
Qed.

Lemma well_formed_run (events : list Event) (h : Hook) :
well_formed h -> well_formed (run content_at events h).
Proof.
revert h. induction events as [|e events IH]; intros h Hwf; [exact Hwf|].
cbn. apply IH. destruct e; cbn.
- apply well_formed_recalculate, well_formed_advance, Hwf.
- apply well_formed_advance, Hwf.
- apply well_formed_cleanup, Hwf.
Qed.

Lemma advance_now (t : Z) (h : Hook) :
well_formed h -> now h <= t -> now (advance content_at t h) = t.
Proof.
intros [Hp _ _ _ _] Hle. destruct Hp as [E|(tm & E & R)].
- rewrite (advance_idle t h E). cbn. lia.
- destruct (Z_lt_le_dec t (snd tm)) as [L|L].
  + rewrite (advance_waiting t h tm E L). cbn. lia.
  + rewrite (advance_due t h tm E L). cbn. lia.
Qed.

(** The timer callback measures the element as it is when it runs. *)
Lemma run_calculate_measured (t : Z) (el : Element) (st : PaginationState) :
content_at t = Some el ->
run_calculate content_at t st
= {| pageBreaks :=
       map (break_at Geometry.CONTENT_HEIGHT_PX)
           (seq 1 (breaks_count Geometry.CONTENT_HEIGHT_PX (scrollHeight el)));
     totalPages :=
       Z.max 1 (- ((- scrollHeight el) / Geometry.CONTENT_HEIGHT_PX)) |}.
Proof.
intros E. unfold run_calculate, calculatePageBreaks. rewrite E.
rewrite calculatePageBreaks_at_result; [reflexivity|reflexivity|].
unfold enough_fuel. lia.
Qed.

End DebounceFacts.

(** C9.  Two triggers less than 150 ms apart, at [t1 <= t2 < t1 + 150],
    cause exactly one recomputation: nothing runs before [t2 + 150], and once
    that time has passed the log has grown by a single run, at [t2 + 150],
    whose result is computed from the element as measured at [t2 + 150]; no
    timer is left pending.  At every moment at most one computation is
    pending, and no timer runs twice. *)
Theorem debounce_coalesces (content_at : Z -> option Element) (t0 : Z)
    (events : list Event) (t1 t2 T : Z) :
  let h := run content_at events (mount content_at t0) in
  let h1 := advance content_at t1 h in
  let armed := trigger content_at t2 (trigger content_at t1 h) in
  let hf := advance content_at T armed in
  now h <= t1 ->
  t1 <= t2 < t1 + 150 ->
  t2 + 150 <= T ->
  (exists id, runs hf = runs h1 ++ [(id, t2 + 150)]) /\
  hook_state hf = run_calculate content_at (t2 + 150) (hook_state h1) /\
  (forall el, content_at (t2 + 150) = Some el ->
     totalPages (hook_state hf)
     = Z.max 1 (JS.Math_ceil (JS.div (scrollHeight el) Geometry.CONTENT_HEIGHT_PX))) /\
  pending hf = [] /\
  (forall t, t < t2 + 150 -> runs (advance content_at t armed) = runs h1) /\
  (List.length (pending h) <= 1)%nat /\
  (List.length (pending armed) <= 1)%nat /\
  NoDup (map fst (runs hf)).
Proof.
  intros h h1 armed hf Hnow H12 HT.
  assert (Hwf : well_formed h) by apply well_formed_run, well_formed_mount.
  assert (Hwf1 : well_formed h1) by apply well_formed_advance, Hwf.
  assert (Hnow1 : now h1 = t1) by (apply advance_now; assumption).
  set (h2 := recalculate h1).
  assert (Hwf2 : well_formed h2) by apply well_formed_recalculate, Hwf1.
  assert (Hp2 : pending h2 = [(next_id h1, t1 + 150)])
    by (pose proof (recalculate_pending h1 Hwf1) as Q; rewrite Hnow1 in Q;
        exact Q).
  set (h3 := advance content_at t2 h2).
  assert (E3 : h3 = {| now := Z.max (now h2) t2; next_id := next_id h2;
                       pending := [(next_id h1, t1 + 150)];
                       debounceTimerRef := debounceTimerRef h2;
                       hook_state := hook_state h2; runs := runs h2 |})
    by (apply advance_waiting; [exact Hp2|cbn; lia]).
  assert (Hwf3 : well_formed h3) by apply well_formed_advance, Hwf2.
  assert (Harmed : armed = recalculate h3) by reflexivity.
  assert (Hwfa : well_formed armed)
    by (rewrite Harmed; apply well_formed_recalculate, Hwf3).
  assert (Hpa : pending armed = [(next_id h3, t2 + 150)]).
  { assert (Hn2 : now h2 = t1) by exact Hnow1.
    assert (Hn3 : now h3 = t2) by (rewrite E3; cbn [now]; rewrite Hn2; lia).
    pose proof (recalculate_pending h3 Hwf3) as Q. rewrite Hn3 in Q. exact Q. }
  assert (Hra : runs armed = runs h1) by (rewrite Harmed, E3; reflexivity).
  assert (Hsa : hook_state armed = hook_state h1)
    by (rewrite Harmed, E3; reflexivity).
  assert (Ef : hf = {| now := Z.max (Z.max (now armed) (t2 + 150)) T;
                       next_id := next_id armed; pending := [];
                       debounceTimerRef := debounceTimerRef armed;
                       hook_state :=
                         run_calculate content_at (t2 + 150) (hook_state armed);
                       runs := runs armed ++ [(next_id h3, t2 + 150)] |})
    by (apply (advance_due content_at T armed _ Hpa); cbn; lia).
  assert (Hsf : hook_state hf
                = run_calculate content_at (t2 + 150) (hook_state h1))
    by (rewrite Ef; cbn [hook_state]; rewrite Hsa; reflexivity).
  split; [exists (next_id h3); rewrite Ef; cbn [runs]; now rewrite Hra|].
  split; [exact Hsf|].
  split.
  { intros el Hel. rewrite Hsf, (run_calculate_measured _ _ el _ Hel).
    cbn [totalPages]. now rewrite Math_ceil_div. }
  split; [rewrite Ef; reflexivity|].
  split.
  { intros t Ht.
    rewrite (advance_waiting content_at t armed _ Hpa) by (cbn; lia).
    exact Hra. }
  split.
  { destruct (wf_pending h Hwf) as [E|(tm & E & _)]; rewrite E; cbn; lia. }
  split; [rewrite Hpa; cbn; lia|].
  apply wf_runs_once. apply well_formed_advance, Hwfa.
Qed.

Lemma debounce_coalesces_witness :
  let content_at := fun t => if t <? 200 then Some (mkElement 900 "")
                             else Some (mkElement 2000 "") in
  let hf := run content_at [Trigger 10; Trigger 100; Elapse 1000]
                (mount content_at 0) in
  runs hf = [(1%nat, 250)] /\ totalPages (hook_state hf) = 3 /\ pending hf = [].
Proof.
  intros content_at hf.
  destruct (debounce_coalesces content_at 0 [] 10 100 1000)
    as (_ & S & _ & P & _).
  - vm_compute. discriminate.
  - lia.
  - lia.
  - split; [vm_compute; reflexivity|]. split; [|exact P].
    transitivity
      (totalPages
         (run_calculate content_at (100 + 150)
            (hook_state (advance content_at 10 (mount content_at 0))))).
    + exact (f_equal totalPages S).
    + vm_compute. reflexivity.
Defined.

(** ** More on the pagination engine *)

(** For integers the ceiling of [H / P] is one more than the floor of
    [(H - 1) / P]: the page count is the break count plus one. *)
Lemma ceil_is_floor_succ (H P : Z) :
  0 < P -> - ((- H) / P) = (H - 1) / P + 1.
Proof.
  intros HP.
  pose proof (ceil_div_bounds H P HP) as B.
  pose proof (Z.div_mod (H - 1) P ltac:(lia)) as E.
  pose proof (Z.mod_pos_bound (H - 1) P HP) as M.
  nia.
Qed.

(** X1.  Whatever the measured height (negative ones included), a
    recomputation leaves exactly one break fewer than pages. *)
Theorem breaks_one_less_than_pages (P : Z) (fuel : nat) (el : Element)
    (prev : PaginationState) :
  0 < P ->
  (Z.to_nat (scrollHeight el / P) <= fuel)%nat ->
  exists st,
    calculatePageBreaks_at P fuel (Some el) prev = Some st /\
    Z.of_nat (List.length (pageBreaks st)) + 1 = totalPages st.
Proof.
  intros HP Hfuel.
  eexists. split; [apply calculatePageBreaks_at_result; assumption|].
  cbn [pageBreaks totalPages].
  rewrite length_map, length_seq, ceil_is_floor_succ by exact HP.
  unfold breaks_count. lia.
Qed.

Lemma breaks_one_less_than_pages_witness :
  exists st,
    calculatePageBreaks 4 (Some (mkElement 3000 "")) initialState = Some st /\
    Z.of_nat (List.length (pageBreaks st)) + 1 = totalPages st.
Proof.
  apply (breaks_one_less_than_pages Geometry.CONTENT_HEIGHT_PX 4
           (mkElement 3000 "") initialState).
  - reflexivity.
  - vm_compute. lia.
Defined.

(** X2.  Growing content never loses a page or moves a break: for
    [H1 <= H2] the page count does not go down and the breaks of [H1] are
    the first breaks of [H2]. *)
Theorem taller_content_keeps_breaks (P : Z) (fuel : nat) (el1 el2 : Element)
    (prev1 prev2 : PaginationState) :
  0 < P ->
  scrollHeight el1 <= scrollHeight el2 ->
  (Z.to_nat (scrollHeight el2 / P) <= fuel)%nat ->
  exists st1 st2 more,
    calculatePageBreaks_at P fuel (Some el1) prev1 = Some st1 /\
    calculatePageBreaks_at P fuel (Some el2) prev2 = Some st2 /\
    totalPages st1 <= totalPages st2 /\
    pageBreaks st2 = pageBreaks st1 ++ more.
Proof.
  intros HP Hle Hfuel.
  assert (Hdiv : scrollHeight el1 / P <= scrollHeight el2 / P)
    by (apply Z.div_le_mono; lia).
  assert (Hq : (scrollHeight el1 - 1) / P <= (scrollHeight el2 - 1) / P)
    by (apply Z.div_le_mono; lia).
  do 2 eexists.
  exists (map (break_at P)
            (seq (1 + breaks_count P (scrollHeight el1))
                 (breaks_count P (scrollHeight el2)
                  - breaks_count P (scrollHeight el1)))).
  split; [apply calculatePageBreaks_at_result; [assumption|lia]|].
  split; [apply calculatePageBreaks_at_result; assumption|].
  cbn [pageBreaks totalPages].
  rewrite !ceil_is_floor_succ by exact HP.
  split; [lia|].
  rewrite <- map_app, <- seq_app. do 2 f_equal.
  unfold breaks_count. lia.
Qed.

Lemma taller_content_keeps_breaks_witness :
  exists st1 st2 more,
    calculatePageBreaks 4 (Some (mkElement 1000 "")) initialState = Some st1 /\
    calculatePageBreaks 4 (Some (mkElement 3000 "")) initialState = Some st2 /\
    totalPages st1 <= totalPages st2 /\
    pageBreaks st2 = pageBreaks st1 ++ more.
Proof.
  apply (taller_content_keeps_breaks Geometry.CONTENT_HEIGHT_PX 4
           (mkElement 1000 "") (mkElement 3000 "") initialState initialState).
  - reflexivity.
  - simpl. lia.
  - vm_compute. lia.
Defined.

(** ** More on the debounce *)

Lemma last_cons_gen {A : Type} (d a : A) (l : list A) :
  last (a :: l) d = last l a.
Proof.
  revert d a. induction l as [|x l IH]; intros d a; [reflexivity|].
  change (last (a :: x :: l) d) with (last (x :: l) d).
  rewrite IH. symmetry. apply IH.
Qed.

Section BurstFacts.

Variable content_at : Z -> option Element.


(** While triggers keep arriving inside the window the one pending timer
    is pushed back and nothing runs. *)
Lemma burst_keeps_armed (rest : list Z) :
  forall (t : Z) (a : Hook),
    well_formed a ->
    now a = t ->
    (exists id, pending a = [(id, t + 150)]) ->
    Burst.within_window t rest ->
    let a' := Burst.triggers content_at rest a in
    well_formed a' /\
    now a' = last rest t /\
    (exists id, pending a' = [(id, last rest t + 150)]) /\
    runs a' = runs a /\
    hook_state a' = hook_state a.
Proof.
  induction rest as [|t' rest IH]; intros t a Hwf Hnow [id Hp] Hwin.
  - cbn. split; [exact Hwf|]. split; [exact Hnow|].
    split; [exists id; exact Hp|]. split; reflexivity.
  - destruct Hwin as [Ht' Hwin].
    set (b := advance content_at t' a).
    assert (Eb : b = {| now := Z.max (now a) t'; next_id := next_id a;
                        pending := [(id, t + 150)];
                        debounceTimerRef := debounceTimerRef a;
                        hook_state := hook_state a; runs := runs a |})
      by (apply advance_waiting; [exact Hp|cbn; lia]).
    assert (Hwfb : well_formed b) by apply well_formed_advance, Hwf.
    assert (Hnb : now b = t') by (rewrite Eb; cbn; lia).
    pose proof (recalculate_pending b Hwfb) as Hpc. rewrite Hnb in Hpc.
    destruct (IH t' (recalculate b)) as (W & N & Q & R & S).
    + apply well_formed_recalculate, Hwfb.
    + exact Hnb.
    + eexists. exact Hpc.
    + exact Hwin.
    + cbv zeta. rewrite last_cons_gen.
      change (Burst.triggers content_at (t' :: rest) a)
        with (Burst.triggers content_at rest (recalculate b)).
      split; [exact W|]. split; [exact N|]. split; [exact Q|].
      split; [rewrite R|rewrite S]; rewrite Eb; reflexivity.
Qed.

(** The first trigger arms the timer. *)
Lemma first_trigger_arms (t1 : Z) (h : Hook) :
  well_formed h -> now h <= t1 ->
  let a := trigger content_at t1 h in
  well_formed a /\ now a = t1 /\
  (exists id, pending a = [(id, t1 + 150)]) /\
  runs a = runs (advance content_at t1 h) /\
  hook_state a = hook_state (advance content_at t1 h).
Proof.
  intros Hwf Hnow. cbv zeta.
  assert (Hwf1 : well_formed (advance content_at t1 h))
    by apply well_formed_advance, Hwf.
  pose proof (advance_now content_at t1 h Hwf Hnow) as Hn.
  pose proof (recalculate_pending _ Hwf1) as Hp. rewrite Hn in Hp.
  split; [apply well_formed_recalculate, Hwf1|].
  split; [exact Hn|]. split; [eexists; exact Hp|]. split; reflexivity.
Qed.

End BurstFacts.

(** X3.  A burst of any number of triggers, each less than 150 ms after the
    one before, causes exactly one recomputation: nothing runs before the
    last trigger's window has elapsed, and then one run happens, at 150 ms
    after the last trigger. *)
Theorem burst_runs_once (content_at : Z -> option Element) (t0 : Z)
    (events : list Event) (t1 : Z) (rest : list Z) (T : Z) :
  let h := run content_at events (mount content_at t0) in
  let quiet := advance content_at t1 h in
  let armed := Burst.triggers content_at (t1 :: rest) h in
  let final := last rest t1 in
  now h <= t1 ->
  Burst.within_window t1 rest ->
  final + 150 <= T ->
  (exists id, runs (advance content_at T armed) = runs quiet ++ [(id, final + 150)]) /\
  hook_state (advance content_at T armed)
  = run_calculate content_at (final + 150) (hook_state quiet) /\
  pending (advance content_at T armed) = [] /\
  (forall t, t < final + 150 -> runs (advance content_at t armed) = runs quiet).
Proof.
  intros h quiet armed final Hnow Hwin HT.
  assert (Hwf : well_formed h) by apply well_formed_run, well_formed_mount.
  destruct (first_trigger_arms content_at t1 h Hwf Hnow) as (W1 & N1 & P1 & R1 & S1).
  destruct (burst_keeps_armed content_at rest t1 _ W1 N1 P1 Hwin)
    as (W & N & (id & Hp) & R & S).
  change (Burst.triggers content_at rest (trigger content_at t1 h)) with armed in *.
  fold final in N, Hp. fold quiet in R1, S1.
  pose proof (advance_due content_at T armed _ Hp ltac:(cbn; lia)) as E.
  split; [exists id; rewrite E; cbn [runs]; now rewrite R, R1|].
  split; [rewrite E; cbn [hook_state snd]; now rewrite S, S1|].
  split; [rewrite E; reflexivity|].
  intros t Ht.
  rewrite (advance_waiting content_at t armed _ Hp) by (cbn; lia).
  cbn [runs]. now rewrite R, R1.
Qed.

Lemma burst_runs_once_witness :
  let content_at := fun _ : Z => Some (mkElement 2000 "") in
  let armed := Burst.triggers content_at [0; 100; 200; 300] (mount content_at 0) in
  runs (advance content_at 1000 armed) = [(3%nat, 450)] /\
  runs (advance content_at 449 armed) = [].
Proof.
  intros content_at armed.
  destruct (burst_runs_once content_at 0 [] 0 [100; 200; 300] 1000)
    as (_ & _ & _ & Q).
  - vm_compute. discriminate.
  - cbn. lia.
  - cbn. lia.
  - split; [vm_compute; reflexivity|]. apply (Q 449). cbn. lia.
Defined.



(** X5.  The effect's cleanup cancels the pending recomputation: after it no
    timer is pending and, however much time passes, nothing more runs and the
    state stays as it was. *)
Theorem cleanup_cancels_pending (content_at : Z -> option Element) (t0 : Z)
    (events : list Event) (T : Z) :
  let h := run content_at events (mount content_at t0) in
  pending (cleanup h) = [] /\
  runs (advance content_at T (cleanup h)) = runs h /\
  hook_state (advance content_at T (cleanup h)) = hook_state h.
Proof.
  intros h.
  assert (Hwf : well_formed h) by apply well_formed_run, well_formed_mount.
  assert (E : pending (cleanup h) = []).
  { unfold cleanup. cbn [pending].
    destruct (wf_pending h Hwf) as [E|(tm & E & R)].
    - rewrite E. destruct (debounceTimerRef h); reflexivity.
    - rewrite E, R. apply clearTimeout_itself. }
  split; [exact E|].
  rewrite (advance_idle content_at T (cleanup h) E). split; reflexivity.
Qed.

(** ** More on the page chrome *)

Lemma Array_from_map_inv {A : Type} (n : Z) (f : nat -> A) (i : nat) (x : A) :
  nth_error (Array_from_map n f) i = Some x -> x = f i /\ Z.of_nat i < n.
Proof.
  unfold Array_from_map. intros E.
  assert (Hi : (i < Z.to_nat n)%nat).
  { pose proof (proj1 (nth_error_Some (map f (seq 0 (Z.to_nat n))) i)) as L.
    rewrite E, length_map, length_seq in L. apply L. discriminate. }
  rewrite nth_error_map, (nth_error_nth' _ O) in E by (rewrite length_seq; lia).
  rewrite seq_nth in E by lia. cbn in E. injection E as <-.
  split; [reflexivity|lia].
Qed.

(** X6.  The page backgrounds and the gap strips tile the wrapper: there
    are [max(1, totalPages)] pages and one gap fewer; gap [i] starts where
    page [i] ends and page [i + 1] starts where gap [i] ends; every page lies
    inside the wrapper, whose height is the bottom edge of the last page. *)
Theorem pages_and_gaps_tile (props : Props) :
  0 <= contentHeightPx props ->
  let r := render props in
  let n := Z.max 1 (p_totalPages props) in
  Z.of_nat (List.length (pageBackgrounds r)) = n /\
  Z.of_nat (List.length (gapStrips r)) = n - 1 /\
  (forall i bg,
      nth_error (pageBackgrounds r) i = Some bg ->
      0 <= bg_top bg /\ bg_top bg + bg_height bg <= minHeight r) /\
  (forall i bg gap,
      nth_error (pageBackgrounds r) i = Some bg ->
      nth_error (gapStrips r) i = Some gap ->
      gap_top gap = bg_top bg + bg_height bg /\
      exists next,
        nth_error (pageBackgrounds r) (S i) = Some next /\
        bg_top next = gap_top gap + gap_height gap) /\
  (exists last,
      nth_error (pageBackgrounds r) (Z.to_nat (n - 1)) = Some last /\
      minHeight r = bg_top last + bg_height last).
Proof.
  intros HP r n. subst r. unfold render.
  cbn [pageBackgrounds gapStrips minHeight]. unfold JS.Math_max. fold n.
  unfold Array_from_map at 1 2. rewrite !length_map, !length_seq.
  unfold PAGE_GAP_PX.
  split; [lia|]. split; [lia|]. split; [|split].
  - intros i bg E. apply Array_from_map_inv in E. destruct E as [-> Hi].
    cbn [bg_top bg_height]. nia.
  - intros i bg gap E G.
    apply Array_from_map_inv in E. destruct E as [-> Hi].
    apply Array_from_map_inv in G. destruct G as [-> Hg].
    cbn [bg_top bg_height gap_top gap_height]. split; [lia|].
    eexists. split; [apply Array_from_map_nth; lia|].
    cbn [bg_top]. lia.
  - eexists. split; [apply Array_from_map_nth; lia|].
    cbn [bg_top bg_height]. rewrite Z2Nat.id by lia. nia.
Qed.

Lemma pages_and_gaps_tile_witness :
  let r := render (editor_props {| pageBreaks := []; totalPages := 3 |} "" "" true) in
  List.length (pageBackgrounds r) = 3%nat /\
  List.length (gapStrips r) = 2%nat /\
  minHeight r = 2648.
Proof.
  intros r.
  destruct (pages_and_gaps_tile
              (editor_props {| pageBreaks := []; totalPages := 3 |} "" "" true))
    as (L & G & _ & _ & (last & E & M)).
  - vm_compute. discriminate.
  - fold r in L, G, E, M. split; [|split].
    + apply Nat2Z.inj. rewrite L. reflexivity.
    + apply Nat2Z.inj. rewrite G. reflexivity.
    + rewrite M. vm_compute in E. injection E as <-. reflexivity.
Defined.

(** X7.  What the editor draws from a recomputed state fits together: one
    page more than break lines, as many gaps as break lines, a wrapper at
    least as high as the measured content, and every break line inside the
    wrapper. *)
Theorem chrome_fits_pagination (fuel : nat) (el : Element)
    (prev : PaginationState) (header footer : string) (showNumbers : bool) :
  (Z.to_nat (scrollHeight el / Geometry.CONTENT_HEIGHT_PX) <= fuel)%nat ->
  exists st,
    calculatePageBreaks fuel (Some el) prev = Some st /\
    let r := render (editor_props st header footer showNumbers) in
    List.length (pageBackgrounds r) = S (List.length (breakLines r)) /\
    List.length (gapStrips r) = List.length (breakLines r) /\
    scrollHeight el <= minHeight r /\
    Forall (fun line => 0 < line_top line < minHeight r) (breakLines r).
Proof.
  intros Hfuel. set (P := Geometry.CONTENT_HEIGHT_PX) in *.
  assert (HP : 0 < P) by reflexivity.
  eexists. split; [apply calculatePageBreaks_at_result; assumption|].
  cbv zeta. unfold render, editor_props.
  cbn [pageBackgrounds gapStrips breakLines minHeight p_totalPages p_pageBreaks
       contentHeightPx marginPx pageBreaks totalPages].
  unfold Array_from_map, JS.Math_max. rewrite !length_map, !length_seq.
  rewrite ceil_is_floor_succ by exact HP. fold P.
  set (H := scrollHeight el) in *.
  pose proof (Z.div_mod (H - 1) P ltac:(lia)) as E.
  pose proof (Z.mod_pos_bound (H - 1) P HP) as M.
  assert (Hm : Geometry.MARGIN_PX = 96) by reflexivity.
  assert (HPv : P = 864) by reflexivity.
  unfold PAGE_GAP_PX, breaks_count.
  split; [lia|]. split; [lia|]. split; [nia|].
  apply Forall_forall. intros line Hin.
  apply in_map_iff in Hin. destruct Hin as (b & <- & Hb).
  apply in_map_iff in Hb. destruct Hb as (k & <- & Hk).
  apply in_seq in Hk. cbn [line_top heightFromTop break_at]. nia.
Qed.

Lemma chrome_fits_pagination_witness :
  exists st,
    calculatePageBreaks 4 (Some (mkElement 3000 "")) initialState = Some st /\
    3000 <= minHeight (render (editor_props st "" "" true)).
Proof.
  destruct (chrome_fits_pagination 4 (mkElement 3000 "") initialState "" "" true)
    as (st & E & _ & _ & M & _).
  - vm_compute. lia.
  - exists st. split; [exact E|exact M].
Defined.

(** [String(n)] tells integers apart. *)
Lemma String_of_inj (a b : Z) : JS.String_of a = JS.String_of b -> a = b.
Proof.
  unfold JS.String_of. intros E. apply DecimalZ.to_int_inj.
  assert (R : forall z, NilZero.int_of_string (NilZero.string_of_int (Z.to_int z))
                        = Some (Z.to_int z)).
  { intros z. apply NilZero.isi; destruct z; cbn; try discriminate;
      intros [= H]; exact (DecimalPos.Unsigned.to_uint_nonnil _ H). }
  pose proof (R a) as Ra. rewrite E, R in Ra. now injection Ra.
Qed.

Lemma append_inv_head (a b c : string) :
  (a ++ b = a ++ c)%string -> b = c.
Proof.
  induction a as [|x a IH]; cbn; [trivial|]. intros [= E]. exact (IH E).
Qed.

Lemma append_inv_tail (a b c : string) :
  (a ++ c = b ++ c)%string -> a = b.
Proof.
  revert b. induction a as [|x a IH]; intros [|y b] E; cbn in E.
  - reflexivity.
  - exfalso. apply (f_equal String.length) in E.
    cbn in E. rewrite length_append in E. lia.
  - exfalso. apply (f_equal String.length) in E.
    cbn in E. rewrite length_append in E. lia.
  - injection E as -> E. f_equal. exact (IH b E).
Qed.

(** X8.  Two pages carry the same footer text only when they are the same
    page or the footer is static, that is, a non-empty template without
    [{page}] or an empty template with page numbers switched off; otherwise
    every page gets a footer of its own. *)
Theorem footers_equal_iff_static (props : Props) (i j : nat) :
  footer (footerText props) (pageNumbersShown props) i
  = footer (footerText props) (pageNumbersShown props) j
  <->
  i = j \/
  (footerTemplate props <> ""%string /\
   forall k, substring k 6 (footerTemplate props) <> "{page}"%string) \/
  (footerTemplate props = ""%string /\ pageNumbersShown props = false).
Proof.
  rewrite !footer_cases.
  destruct (String.eqb_spec (footerTemplate props) "") as [Ht|Ht].
  - destruct (pageNumbersShown props) eqn:Hs.
    + split.
      * intros E. left. apply append_inv_head, String_of_inj in E. lia.
      * intros [->|[[C _]|[_ C]]]; [reflexivity|contradiction|discriminate].
    + split; [intros _; right; right; split; [exact Ht|reflexivity]|reflexivity].
  - unfold JS.replace.
    destruct (index 0 "{page}" (footerTemplate props)) as [m|] eqn:Ei.
    + split.
      * intros E. left.
        apply append_inv_head, append_inv_tail, String_of_inj in E. lia.
      * intros [->|[[_ C]|[C _]]]; [reflexivity| |contradiction].
        exfalso. apply (C m). exact (index_correct1 _ _ _ _ Ei).
    + split; [|reflexivity].
      intros _. right. left. split; [exact Ht|].
      intros k. apply (index_correct3 0 k _ _ Ei); [discriminate|lia].
Qed.

(** ** More on the PDF export *)

(** X9.  A successful export captures the element with a white background,
    puts the element's own background back, leaves the pagination state
    alone and hands exactly one new file, [document.pdf], to the browser. *)
Theorem successful_export_adds_one_download (W P scale : Z)
    (html2canvas : Element -> Z -> string + Canvas) (w : World)
    (el : Element) (canvas : Canvas) :
  contentRef_current w = Some el ->
  html2canvas (set_background el "#ffffff") scale = inr canvas ->
  exportToPDF_at W P scale html2canvas w
  = (Fulfilled,
     {| contentRef_current := Some el;
        pagination := pagination w;
        downloads :=
          downloads w ++ [("document.pdf"%string, assemble W P scale canvas)] |}).
Proof.
  intros Hcur Hcap. unfold exportToPDF_at. rewrite Hcur, Hcap.
  destruct el as [h bg]. reflexivity.
Qed.

Lemma successful_export_adds_one_download_witness :
  let w := {| contentRef_current := Some (mkElement 900 "#f5f5f5");
              pagination := initialState; downloads := [] |} in
  let capture := fun (el : Element) (s : Z) =>
                   inr (mkCanvas (624 * s) (scrollHeight el * s)) in
  exists pdf,
    exportToPDF capture w
    = (Fulfilled,
       {| contentRef_current := Some (mkElement 900 "#f5f5f5");
          pagination := initialState;
          downloads := [("document.pdf"%string, pdf)] |}).
Proof.
  intros w capture. eexists.
  apply (successful_export_adds_one_download
           Geometry.CONTENT_WIDTH_PX Geometry.CONTENT_HEIGHT_PX 2 capture w
           (mkElement 900 "#f5f5f5") (mkCanvas 1248 1800)); reflexivity.
Defined.

Section SliceFacts.

Variables W P scale : Z.
Variable canvas : Canvas.
Hypothesis Hpage : 0 < P * scale.

Lemma totalPagesPdf_bounds :
  (totalPagesPdf P scale canvas - 1) * (P * scale) < canvas_height canvas
  <= totalPagesPdf P scale canvas * (P * scale).
Proof.
  unfold totalPagesPdf, pageHeightPx. rewrite Math_ceil_div.
  apply ceil_div_bounds, Hpage.
Qed.

(** The rows of the first [m] slices add up to the row where slice [m]
    starts. *)
Lemma slice_heights_sum (m : nat) :
  Z.of_nat m < totalPagesPdf P scale canvas ->
  fold_right Z.add 0
    (map (fun i => pc_height (pageCanvas W P scale canvas i)) (seq 0 m))
  = Z.of_nat m * (P * scale).
Proof.
  pose proof totalPagesPdf_bounds as B.
  induction m as [|m IH]; intros Hm; [reflexivity|].
  rewrite seq_S, map_app, fold_right_app. cbn [map fold_right Nat.add].
  assert (E : pc_height (pageCanvas W P scale canvas m) = P * scale).
  { unfold pageCanvas, pageHeightPx, JS.Math_min. cbn [pc_height]. nia. }
  rewrite E, Z.add_0_r.
  assert (G : forall l a, fold_right Z.add a l = fold_right Z.add 0 l + a).
  { induction l as [|x l IHl]; intros a; cbn; [lia|]. rewrite IHl. lia. }
  rewrite G, IH by lia. lia.
Qed.

End SliceFacts.

(** X10.  The slices tile the captured image: the first starts at row 0,
    each holds at least one row and ends where the next starts, the last ends
    at the image's last row, and their heights add up to the image height.
    No row is lost and none appears on two pages. *)
Theorem slices_tile_capture (W P scale : Z) (canvas : Canvas) :
  0 < P * scale ->
  0 <= canvas_height canvas ->
  let n := Z.to_nat (totalPagesPdf P scale canvas) in
  let slice := pageCanvas W P scale canvas in
  pc_sy (slice O) = 0 /\
  (forall i, (i < n)%nat ->
     pc_sx (slice i) = 0 /\
     0 < pc_height (slice i) /\
     pc_sy (slice i) + pc_height (slice i)
     = if (S i <? n)%nat then pc_sy (slice (S i)) else canvas_height canvas) /\
  fold_right Z.add 0 (map (fun i => pc_height (slice i)) (seq 0 n))
  = canvas_height canvas.
Proof.
  intros Hpage Hh n slice.
  pose proof (totalPagesPdf_bounds P scale canvas Hpage) as B.
  split; [reflexivity|]. split.
  - intros i Hi. subst slice. unfold pageCanvas, pageHeightPx, JS.Math_min.
    cbn [pc_sx pc_sy pc_height].
    split; [reflexivity|].
    assert (Z.of_nat i < totalPagesPdf P scale canvas) by lia.
    split; [nia|].
    destruct (Nat.ltb_spec (S i) n) as [L|L].
    + assert (Z.of_nat (S i) < totalPagesPdf P scale canvas) by lia. nia.
    + assert (Z.of_nat i = totalPagesPdf P scale canvas - 1) by lia. nia.
  - destruct n as [|m] eqn:En.
    + cbn. assert (totalPagesPdf P scale canvas <= 0) by lia. nia.
    + subst slice. rewrite seq_S, map_app, fold_right_app.
      cbn [map fold_right Nat.add].
      assert (G : forall l a, fold_right Z.add a l = fold_right Z.add 0 l + a).
      { induction l as [|x l IHl]; intros a; cbn; [lia|]. rewrite IHl. lia. }
      rewrite G, (slice_heights_sum W P scale canvas Hpage m) by lia.
      unfold pageCanvas, pageHeightPx, JS.Math_min. cbn [pc_height].
      assert (Z.of_nat m = totalPagesPdf P scale canvas - 1) by lia. nia.
Qed.

Lemma slices_tile_capture_witness :
  map (fun i => pc_height (pageCanvas 624 864 2 (mkCanvas 1248 4320) i)) (seq 0 3)
  = [1728; 1728; 864] /\
  fold_right Z.add 0
    (map (fun i => pc_height (pageCanvas 624 864 2 (mkCanvas 1248 4320) i))
         (seq 0 (Z.to_nat (totalPagesPdf 864 2 (mkCanvas 1248 4320)))))
  = 4320.
Proof.
  split; [reflexivity|].
  apply (slices_tile_capture 624 864 2 (mkCanvas 1248 4320)).
  - lia.
  - simpl. lia.
Defined.

(** X11.  The document holds one page per slice, in order, each with a
    single image drawn at the origin over the whole [W] x [P] page; a capture
    without rows gives a document of one blank page. *)
Theorem one_page_per_slice (W P scale : Z) (canvas : Canvas) :
  0 < P * scale ->
  pdf_format (assemble W P scale canvas) = (W, P) /\
  (canvas_height canvas <= 0 ->
   pdf_pages (assemble W P scale canvas) = [ {| page_images := [] |} ]) /\
  (0 < canvas_height canvas ->
   1 <= totalPagesPdf P scale canvas /\
   pdf_pages (assemble W P scale canvas)
   = map (fun i =>
            {| page_images :=
                 [ {| pi_image := pageCanvas W P scale canvas i;
                      pi_x := 0; pi_y := 0; pi_w := W; pi_h := P |} ] |})
         (seq 0 (Z.to_nat (totalPagesPdf P scale canvas)))).
Proof.
  intros Hpage.
  pose proof (totalPagesPdf_bounds P scale canvas Hpage) as B.
  pose proof (assemble_pages W P scale canvas) as E.
  split.
  - unfold assemble.
    destruct (Z.to_nat (totalPagesPdf P scale canvas)) as [|n]; [reflexivity|].
    rewrite export_pages_run. reflexivity.
  - split; intros Hh.
    + assert (Z.to_nat (totalPagesPdf P scale canvas) = O) as Z0 by nia.
      rewrite Z0 in E. exact E.
    + assert (1 <= totalPagesPdf P scale canvas) as L by nia.
      split; [exact L|].
      destruct (Z.to_nat (totalPagesPdf P scale canvas)) as [|n] eqn:En; [lia|].
      exact E.
Qed.

Lemma one_page_per_slice_witness :
  List.length (pdf_pages (assemble 624 864 2 (mkCanvas 1248 4320))) = 3%nat /\
  pdf_pages (assemble 624 864 2 (mkCanvas 1248 0)) = [ {| page_images := [] |} ].
Proof.
  destruct (one_page_per_slice 624 864 2 (mkCanvas 1248 4320)) as (_ & _ & F);
    [lia|].
  destruct (one_page_per_slice 624 864 2 (mkCanvas 1248 0)) as (_ & Z0 & _);
    [lia|].
  split.
  - destruct F as [_ F]; [simpl; lia|]. rewrite F. reflexivity.
  - apply Z0. simpl. lia.
Defined.

(** X12.  A page of the document shows its slice undistorted exactly when
    the slice is a full page high: every page but the last does, and the last
    one does only when the image height is a multiple of the page height;
    otherwise the last slice is stretched to fill the page. *)
Theorem page_keeps_aspect_iff_full (W P scale : Z) (canvas : Canvas) (i : nat) :
  0 < W -> 0 < P -> 0 < scale ->
  Z.of_nat i < totalPagesPdf P scale canvas ->
  exists placed,
    nth_error (pdf_pages (assemble W P scale canvas)) i
    = Some {| page_images := [placed] |} /\
    (keeps_aspect placed
     <-> (Z.of_nat i + 1) * (P * scale) <= canvas_height canvas) /\
    (Z.of_nat i + 1 < totalPagesPdf P scale canvas -> keeps_aspect placed).
Proof.
  intros HW HP Hs Hi.
  assert (Hpage : 0 < P * scale) by nia.
  pose proof (totalPagesPdf_bounds P scale canvas Hpage) as B.
  eexists. split.
  - rewrite assemble_pages.
    destruct (Z.to_nat (totalPagesPdf P scale canvas)) as [|n] eqn:En; [lia|].
    rewrite nth_error_map, (nth_error_nth' _ O) by (rewrite length_seq; lia).
    rewrite seq_nth by lia. reflexivity.
  - unfold keeps_aspect, pageCanvas, pageWidthPx, pageHeightPx, JS.Math_min.
    cbn [pi_w pi_h pi_image pc_height pc_width].
    split; [split; intros E; nia|]. intros L. nia.
Qed.

Lemma page_keeps_aspect_iff_full_witness :
  exists placed,
    nth_error (pdf_pages (assemble 624 864 2 (mkCanvas 1248 4320))) 2
    = Some {| page_images := [placed] |} /\
    ~ keeps_aspect placed.
Proof.
  destruct (page_keeps_aspect_iff_full 624 864 2 (mkCanvas 1248 4320) 2)
    as (placed & E & A & _).
  - lia.
  - lia.
  - lia.
  - vm_compute. reflexivity.
  - exists placed. split; [exact E|]. intros K. apply A in K. simpl in K. lia.
Defined.

(** ** What is kept in [localStorage] *)

Import Persistence.



Section SaverFacts.

Lemma clear_own_timer (tm : SaveTimer) : clearTimeout (timer_id tm) [tm] = [].
Proof. unfold clearTimeout. cbn [filter]. now rewrite Nat.eqb_refl. Qed.

Lemma saver_idle (t : Z) (sv : Saver) :
  s_pending sv = [] ->
  advance t sv
  = {| s_now := Z.max (s_now sv) t; s_next_id := s_next_id sv; s_pending := [];
       saveTimer := saveTimer sv; localStorage := localStorage sv |}.
Proof. intros E. unfold advance. rewrite E. cbn. now rewrite E. Qed.

Lemma saver_waiting (t : Z) (sv : Saver) (tm : SaveTimer) :
  s_pending sv = [tm] -> t < timer_due tm ->
  advance t sv
  = {| s_now := Z.max (s_now sv) t; s_next_id := s_next_id sv;
       s_pending := [tm];
       saveTimer := saveTimer sv; localStorage := localStorage sv |}.
Proof.
  intros E Hlt. unfold advance. rewrite E. cbn [filter].
  replace (timer_due tm <=? t) with false by (symmetry; apply Z.leb_gt; exact Hlt).
  cbn. now rewrite E.
Qed.

Lemma saver_due (t : Z) (sv : Saver) (tm : SaveTimer) :
  s_pending sv = [tm] -> timer_due tm <= t ->
  advance t sv
  = {| s_now := Z.max (Z.max (s_now sv) (timer_due tm)) t;
       s_next_id := s_next_id sv; s_pending := [];
       saveTimer := saveTimer sv;
       localStorage :=
         match setItem (localStorage sv) STORAGE_KEY_CONTENT (timer_html tm) with
         | Some ls => ls
         | None => localStorage sv
         end |}.
Proof.
  intros E Hle. unfold advance. rewrite E. cbn [filter].
  replace (timer_due tm <=? t) with true by (symmetry; apply Z.leb_le; exact Hle).
  cbn. rewrite E, clear_own_timer. reflexivity.
Qed.

Lemma schedule_save_pending (html : string) (sv : Saver) :
  idle_or_armed sv ->
  s_pending (schedule_save html sv) = [(s_next_id sv, s_now sv + 150, html)].
Proof.
  intros [E|(tm & E & R)]; unfold schedule_save; cbn [s_pending].
  - rewrite E. destruct (saveTimer sv); reflexivity.
  - rewrite E, R, clear_own_timer. reflexivity.
Qed.

Lemma idle_or_armed_schedule (html : string) (sv : Saver) :
  idle_or_armed sv -> idle_or_armed (schedule_save html sv).
Proof.
  intros H. right. eexists. split; [apply schedule_save_pending, H|reflexivity].
Qed.

Lemma idle_or_armed_advance (t : Z) (sv : Saver) :
  idle_or_armed sv -> idle_or_armed (advance t sv).
Proof.
  intros [E|(tm & E & R)].
  - rewrite (saver_idle t sv E). left. reflexivity.
  - destruct (Z_lt_le_dec t (timer_due tm)) as [L|L].
    + rewrite (saver_waiting t sv tm E L). right. exists tm. split; [reflexivity|exact R].
    + rewrite (saver_due t sv tm E L). left. reflexivity.
Qed.

Lemma idle_or_armed_updates (us : list (Z * string)) (sv : Saver) :
  idle_or_armed sv -> idle_or_armed (updates us sv).
Proof.
  revert sv. induction us as [|u us IH]; intros sv H; [exact H|].
  cbn. apply IH. apply idle_or_armed_schedule, idle_or_armed_advance, H.
Qed.

Lemma saver_now (t : Z) (sv : Saver) :
  idle_or_armed sv -> s_now sv <= t -> s_now (advance t sv) = t.
Proof.
  intros [E|(tm & E & R)] Hle.
  - rewrite (saver_idle t sv E). cbn. lia.
  - destruct (Z_lt_le_dec t (timer_due tm)) as [L|L].
    + rewrite (saver_waiting t sv tm E L). cbn. lia.
    + rewrite (saver_due t sv tm E L). cbn. lia.
Qed.

(** While updates keep arriving inside the window, the one pending save is
    replaced by a save of the newest HTML and the storage is not touched. *)
Lemma burst_keeps_latest (rest : list (Z * string)) :
  forall (t : Z) (html : string) (a : Saver),
    idle_or_armed a ->
    s_now a = t ->
    (exists id, s_pending a = [(id, t + 150, html)]) ->
    Burst.within_window t (map fst rest) ->
    let a' := updates rest a in
    let final := last (map fst rest) t in
    idle_or_armed a' /\
    (exists id, s_pending a' = [(id, final + 150, last (map snd rest) html)]) /\
    localStorage a' = localStorage a.
Proof.
  induction rest as [|[t' html'] rest IH]; intros t html a Hok Hnow [id Hp] Hwin.
  - cbn. split; [exact Hok|]. split; [exists id; exact Hp|reflexivity].
  - destruct Hwin as [Ht' Hwin]. cbn [fst map] in Ht', Hwin.
    set (b := advance t' a).
    assert (Eb : b = {| s_now := Z.max (s_now a) t'; s_next_id := s_next_id a;
                        s_pending := [(id, t + 150, html)];
                        saveTimer := saveTimer a;
                        localStorage := localStorage a |})
      by (apply saver_waiting; [exact Hp|cbn; lia]).
    assert (Hokb : idle_or_armed b) by apply idle_or_armed_advance, Hok.
    assert (Hnb : s_now b = t') by (rewrite Eb; cbn [s_now]; lia).
    pose proof (schedule_save_pending html' b Hokb) as Hpc. rewrite Hnb in Hpc.
    destruct (IH t' html' (schedule_save html' b)) as (W & Q & S).
    + apply idle_or_armed_schedule, Hokb.
    + exact Hnb.
    + eexists. exact Hpc.
    + exact Hwin.
    + cbv zeta. cbn [map fst snd]. rewrite (last_cons_gen t t'), (last_cons_gen html html').
      change (updates ((t', html') :: rest) a)
        with (updates rest (schedule_save html' b)).
      split; [exact W|]. split; [exact Q|].
      rewrite S, Eb. reflexivity.
Qed.

End SaverFacts.

(** After a burst of updates and a quiet 150 ms, one save has happened: of
    the newest HTML, into the storage as it was when the burst began. *)
Lemma burst_final_storage (t0 : Z) (ls : Storage) (us : list (Z * string))
    (t1 : Z) (html1 : string) (rest : list (Z * string)) :
  let sv := updates us (mounted t0 ls) in
  let quiet := advance t1 sv in
  let armed := updates ((t1, html1) :: rest) sv in
  let final := last (map fst rest) t1 in
  let html := last (map snd rest) html1 in
  s_now sv <= t1 ->
  Burst.within_window t1 (map fst rest) ->
  (forall t, t < final + 150 -> localStorage (advance t armed) = localStorage quiet) /\
  (forall T, final + 150 <= T ->
     s_pending (advance T armed) = [] /\
     localStorage (advance T armed)
     = match setItem (localStorage quiet) STORAGE_KEY_CONTENT html with
       | Some ls' => ls'
       | None => localStorage quiet
       end).
Proof.
  intros sv quiet armed final html Hnow Hwin.
  assert (Hok : idle_or_armed sv)
    by (apply idle_or_armed_updates; left; reflexivity).
  assert (Hokq : idle_or_armed quiet) by apply idle_or_armed_advance, Hok.
  pose proof (saver_now t1 sv Hok Hnow) as Hn. fold quiet in Hn.
  pose proof (schedule_save_pending html1 quiet Hokq) as Hp. rewrite Hn in Hp.
  destruct (burst_keeps_latest rest t1 html1 (schedule_save html1 quiet))
    as (W & (id & Q) & S).
  - apply idle_or_armed_schedule, Hokq.
  - exact Hn.
  - eexists. exact Hp.
  - exact Hwin.
  - change (updates rest (schedule_save html1 quiet)) with armed in *.
    fold final html in Q. cbn [schedule_save localStorage] in S.
    split.
    + intros t Ht.
      rewrite (saver_waiting t armed _ Q) by (cbn; lia). exact S.
    + intros T HT.
      rewrite (saver_due T armed _ Q) by (cbn; lia).
      cbn [s_pending localStorage timer_html snd]. rewrite S.
      split; reflexivity.
Qed.

(** X14.  Content saving is debounced like the pagination: during a burst
    of editor updates, each less than 150 ms after the one before, the storage
    is not written; 150 ms after the last one the content key holds the HTML
    of the last update, as it was when that update was reported, and every
    other key is as before.  A storage that refuses writes is left as it was
    and nothing fails. *)
Theorem burst_saves_latest_content (t0 : Z) (ls : Storage)
    (us : list (Z * string)) (t1 : Z) (html1 : string)
    (rest : list (Z * string)) (T : Z) :
  let sv := updates us (mounted t0 ls) in
  let quiet := advance t1 sv in
  let armed := updates ((t1, html1) :: rest) sv in
  let final := last (map fst rest) t1 in
  let html := last (map snd rest) html1 in
  s_now sv <= t1 ->
  Burst.within_window t1 (map fst rest) ->
  final + 150 <= T ->
  (forall t, t < final + 150 -> localStorage (advance t armed) = localStorage quiet) /\
  (writable (localStorage quiet) = true ->
     items (localStorage (advance T armed)) STORAGE_KEY_CONTENT = Some html /\
     forall key, key <> STORAGE_KEY_CONTENT ->
       items (localStorage (advance T armed)) key = items (localStorage quiet) key) /\
  (writable (localStorage quiet) = false ->
     localStorage (advance T armed) = localStorage quiet) /\
  s_pending (advance T armed) = [].
Proof.
  intros sv quiet armed final html Hnow Hwin HT.
  destruct (burst_final_storage t0 ls us t1 html1 rest Hnow Hwin) as [B A].
  destruct (A T HT) as [Pf Sf].
  fold sv quiet armed final html in B, Pf, Sf.
  split; [exact B|]. split; [|split; [|exact Pf]].
  - intros Hw. rewrite Sf. unfold setItem. rewrite Hw. cbn [items].
    split; [now rewrite String.eqb_refl|].
    intros key Hk. apply String.eqb_neq in Hk. now rewrite Hk.
  - intros Hw. rewrite Sf. unfold setItem. now rewrite Hw.
Qed.

Lemma burst_saves_latest_content_witness :
  let ls := {| readable := true; writable := true; items := fun _ => None |} in
  let armed := updates [(0, "<p>a</p>"); (100, "<p>ab</p>"); (220, "<p>abc</p>")]%string
                 (mounted 0 ls) in
  items (localStorage (advance 369 armed)) STORAGE_KEY_CONTENT = None /\
  items (localStorage (advance 370 armed)) STORAGE_KEY_CONTENT
  = Some "<p>abc</p>"%string.
Proof.
  intros ls armed.
  destruct (burst_saves_latest_content 0 ls [] 0 "<p>a</p>"
              [(100, "<p>ab</p>"); (220, "<p>abc</p>")]%string 370)
    as (B & A & _).
  - simpl. lia.
  - cbn. lia.
  - cbn. lia.
  - split.
    + change armed with
        (updates ((0, "<p>a</p>"%string)
                    :: [(100, "<p>ab</p>"); (220, "<p>abc</p>")]%string)
           (updates [] (mounted 0 ls))).
      rewrite B by (cbn; lia). reflexivity.
    + apply A. reflexivity.
Defined.

(** X15.  What was typed survives a reload: once the save after a burst of
    updates has run on a working storage, the restore effect of a freshly
    mounted editor loads the HTML of the last update, unless that HTML is the
    empty string, in which case the editor keeps its own content. *)
Theorem saved_content_is_restored (t0 : Z) (ls : Storage)
    (us : list (Z * string)) (t1 : Z) (html1 : string)
    (rest : list (Z * string)) (T : Z) (cur : Settings) (own : string) :
  let sv := updates us (mounted t0 ls) in
  let armed := updates ((t1, html1) :: rest) sv in
  let html := last (map snd rest) html1 in
  s_now sv <= t1 ->
  Burst.within_window t1 (map fst rest) ->
  last (map fst rest) t1 + 150 <= T ->
  readable (localStorage (advance t1 sv)) = true ->
  writable (localStorage (advance t1 sv)) = true ->
  editor cur = Some own ->
  editor (restore (localStorage (advance T armed)) cur)
  = if (html =? "")%string then Some own else Some html.
Proof.
  intros sv armed html Hnow Hwin HT Hr Hw Hed.
  destruct (burst_final_storage t0 ls us t1 html1 rest Hnow Hwin) as [_ A].
  destruct (A T HT) as [_ Sf]. fold sv armed html in Sf.
  rewrite Sf. unfold setItem, restore, getItem. rewrite Hw, Hed.
  cbn [readable items]. rewrite Hr. cbn [editor].
  rewrite String.eqb_refl. cbn [JS.truthy].
  destruct (html =? "")%string; reflexivity.
Qed.

Lemma saved_content_is_restored_witness :
  let ls := {| readable := true; writable := true; items := fun _ => None |} in
  let armed := updates [(0, "<p>a</p>"); (100, "<p>ab</p>")]%string (mounted 0 ls) in
  editor (restore (localStorage (advance 500 armed))
            (initialSettings (Some "<h1>Legal Document Editor</h1>"%string)))
  = Some "<p>ab</p>"%string.
Proof.
  intros ls armed.
  apply (saved_content_is_restored 0 ls [] 0 "<p>a</p>"
           [(100, "<p>ab</p>"%string)] 500
           (initialSettings (Some "<h1>Legal Document Editor</h1>"%string))
           "<h1>Legal Document Editor</h1>").
  - simpl. lia.
  - cbn. lia.
  - cbn. lia.
  - reflexivity.
  - reflexivity.
  - reflexivity.
Defined.
